(** * Target functions of the MFO deep-learning seminar notebook

    Shallow embedding of the numeric core of
    [interactive-experiments/Part-II-target-functions.ipynb]:
    Bernstein polynomials, their derivatives and tensor products, the
    integrated sign functions and the weighted sum of both families.

    Modelling conventions.
    - Python [int]s are [Z]; numpy and Python floats are idealised to the
      real numbers [R] (no rounding, no NaN, no infinities).  The one float
      effect that raises an exception, the [OverflowError] of a power of a
      Python float, is modelled apart, in [float_pow] and [bernstein_float].
    - A raised Python exception is the [Err] case of [result].
    - numpy arrays are handled through the class [NDArray]: every numpy
      expression of the notebook is a universal function applied cell by
      cell.  A Python float is the array with one cell; an array with one
      more axis of length [n] is a vector of [n] arrays.  The two operands
      of a binary operation have one type, hence one shape: broadcasting
      between arrays of different shapes is outside the model. *)

From Stdlib Require Import Reals ZArith List Bool Lia Lra.
Set Warnings "-stdlib-vector".
From Stdlib Require Vector.
Import ListNotations.

Open Scope Z_scope.
Open Scope R_scope.

(** ** Exceptions *)

Inductive error : Set :=
| AssertionError   (* a failed [assert] *)
| ValueError       (* [math.factorial] of a negative integer *)
| OverflowError.   (* a power of a Python float out of the range of a double *)

Inductive result (A : Type) : Type :=
| Ok  : A -> result A
| Err : error -> result A.

Arguments Ok {A} _.
Arguments Err {A} _.

Definition bind {A B : Type} (r : result A) (f : A -> result B) : result B :=
  match r with
  | Ok a => f a
  | Err e => Err e
  end.

Notation "x <- r ;; k" := (bind r (fun x => k))
  (at level 61, r at next level, right associativity).

(** [assert b] : continue when [b] holds, raise [AssertionError] otherwise. *)
Definition assert (b : bool) : result unit :=
  if b then Ok tt else Err AssertionError.

(** The value of a computation, [d] when it raised. *)
Definition value_or {A : Type} (d : A) (r : result A) : A :=
  match r with
  | Ok a => a
  | Err _ => d
  end.

(** ** numpy arrays *)

Class NDArray (A : Type) : Type := {
  Ix : Type;                                        (* positions of the cells *)
  item : A -> Ix -> R;                              (* the cell at a position *)
  ufunc1 : (R -> R) -> A -> A;                      (* unary elementwise map  *)
  ufunc2 : (R -> R -> R) -> A -> A -> A;            (* binary elementwise map *)
  item_ufunc1 : forall f x i, item (ufunc1 f x) i = f (item x i);
  item_ufunc2 : forall f x y i,
      item (ufunc2 f x y) i = f (item x i) (item y i)
}.

(** A Python float. *)
#[export] Instance NDArray_scalar : NDArray R := {|
  Ix := unit;
  item := fun x _ => x;
  ufunc1 := fun f x => f x;
  ufunc2 := fun f x y => f x y;
  item_ufunc1 := fun f x i => eq_refl;
  item_ufunc2 := fun f x y i => eq_refl
|}.

(** One more axis, of length [n], on top of arrays [A]. *)
#[export] Instance NDArray_axis (A : Type) `{NDArray A} (n : nat)
  : NDArray (Vector.t A n) := {|
  Ix := (Fin.t n * Ix)%type;
  item := fun x p => item (Vector.nth x (fst p)) (snd p);
  ufunc1 := fun f x => Vector.map (ufunc1 f) x;
  ufunc2 := fun f x y => Vector.map2 (ufunc2 f) x y;
  item_ufunc1 := fun f x p =>
    eq_trans
      (f_equal (fun a => item a (snd p))
         (Vector.nth_map (ufunc1 f) x (fst p) (fst p) eq_refl))
      (item_ufunc1 f (Vector.nth x (fst p)) (snd p));
  item_ufunc2 := fun f x y p =>
    eq_trans
      (f_equal (fun a => item a (snd p))
         (Vector.nth_map2 (ufunc2 f) x y (fst p) (fst p) (fst p)
            eq_refl eq_refl))
      (item_ufunc2 f (Vector.nth x (fst p)) (Vector.nth y (fst p)) (snd p))
|}.

(** [np.sign] : the three-valued signum. *)
Definition sign (x : R) : R :=
  if Rlt_dec x 0 then -1 else if Rlt_dec 0 x then 1 else 0.

Module np.
Section Ops.
Context {A : Type} `{NDArray A}.

(** [c * x] for a Python number [c] and an array [x]. *)
Definition scale (c : R) (x : A) : A := ufunc1 (fun t => c * t) x.

(** [c - x]. *)
Definition rsub (c : R) (x : A) : A := ufunc1 (fun t => c - t) x.

(** [x - c]. *)
Definition subc (x : A) (c : R) : A := ufunc1 (fun t => t - c) x.

(** [x ** k] and [np.power(x, k)] for a Python integer [k]; the exponent
    is never negative where the notebook evaluates a power. *)
Definition power (x : A) (k : Z) : A := ufunc1 (fun t => powerRZ t k) x.

(** [np.sign(x)]. *)
Definition sign (x : A) : A := ufunc1 sign x.

(** [x * y], [x + y], [x - y] on two arrays. *)
Definition mul (x y : A) : A := ufunc2 Rmult x y.

Definition add (x y : A) : A := ufunc2 Rplus x y.

Definition sub (x y : A) : A := ufunc2 Rminus x y.

End Ops.

(** [np.all] of a sequence of truth values. *)
Definition all (bs : list bool) : bool := forallb (fun b => b) bs.

(** [np.asarray] of an index pair. *)
Definition asarray (p : Z * Z) : list Z := [fst p; snd p].

(** The comparisons [0 <= a] and [a <= b] of integer arrays of one length. *)
Definition zero_le (a : list Z) : list bool := map (fun k => (0 <=? k)%Z) a.

Fixpoint le (a b : list Z) : list bool :=
  match a, b with
  | k :: a', n :: b' => (k <=? n)%Z :: le a' b'
  | _, _ => []
  end.

End np.

Declare Scope nd_scope.
Delimit Scope nd_scope with nd.
Notation "c .* x" := (np.scale c x) (at level 40, left associativity) : nd_scope.
Notation "x ** k" := (np.power x k) (at level 30, right associativity) : nd_scope.
Notation "x * y" := (np.mul x y) : nd_scope.
Notation "x + y" := (np.add x y) : nd_scope.
Notation "x - y" := (np.sub x y) : nd_scope.

(** ** Library functions the notebook imports *)

(** Pascal's triangle. *)
Fixpoint choose (n k : nat) : nat :=
  match n, k with
  | _, O => 1
  | O, S _ => 0
  | S n', S k' => (choose n' k' + choose n' k)%nat
  end.

(** [scipy.special.binom(n, k)] on the integer arguments [0 <= k <= n],
    the only ones that pass the assertions in front of its call sites:
    the binomial coefficient, as a float. *)
Definition binom (n k : Z) : R := INR (choose (Z.to_nat n) (Z.to_nat k)).

(** [np.math.factorial(n)] : raises [ValueError] on a negative integer. *)
Definition factorial (n : Z) : result Z :=
  if (n <? 0)%Z then Err ValueError else Ok (Z.of_nat (fact (Z.to_nat n))).

(** ** The notebook's functions *)

Section Notebook.
Context {A : Type} `{NDArray A}.
Local Open Scope nd_scope.

(** [def bernstein(x, k, n)] *)
Definition bernstein (x : A) (k n : Z) : result A :=
  _ <- assert ((0 <=? k)%Z && (k <=? n)%Z) ;;
  Ok (binom n k .* (x ** k) * (np.rsub 1 x ** (n - k))).

(** [def Dbernstein(x, k, n)] *)
Definition Dbernstein (x : A) (k n : Z) : result A :=
  _ <- assert ((0 <=? k)%Z && (k <=? n)%Z) ;;
  b1 <- (if (n =? 0)%Z || (k =? 0)%Z
         then Ok (0 .* x)
         else bernstein x (k - 1) (n - 1)) ;;
  b2 <- (if (n =? 0)%Z || (k =? n)%Z
         then Ok (0 .* x)
         else bernstein x k (n - 1)) ;;
  Ok (IZR n .* (b1 - b2)).

(** [def bernstein2d(xgrid, ygrid, k, n)] *)
Definition bernstein2d (xgrid ygrid : A) (k n : Z * Z) : result A :=
  _ <- assert (np.all (np.zero_le (np.asarray k))
               && np.all (np.le (np.asarray k) (np.asarray n))) ;;
  bx <- bernstein xgrid (fst k) (fst n) ;;
  by_ <- bernstein ygrid (snd k) (snd n) ;;
  Ok (bx * by_).

(** [def Dbernstein2d(xgrid, ygrid, k, n)] *)
Definition Dbernstein2d (xgrid ygrid : A) (k n : Z * Z) : result (A * A) :=
  _ <- assert (np.all (np.zero_le (np.asarray k))
               && np.all (np.le (np.asarray k) (np.asarray n))) ;;
  dbx <- Dbernstein xgrid (fst k) (fst n) ;;
  by_ <- bernstein ygrid (snd k) (snd n) ;;
  bx <- bernstein xgrid (fst k) (fst n) ;;
  dby <- Dbernstein ygrid (snd k) (snd n) ;;
  Ok (dbx * by_, bx * dby).

(** [def signpoly(x, n)] *)
Definition signpoly (x : A) (n : Z) : result A :=
  f <- factorial n ;;
  Ok ((1 / IZR f) .* np.power x n * np.sign x).

(** The body of [plot_signpoly2d] up to the call of [plt.imshow]:
    the plotted array [zs] and the colour bound [vscale]. *)
Definition plot_signpoly2d (xgrid ygrid : A) (n1 n2 : Z) (c1 c2 : R)
  : result (A * R) :=
  h1 <- signpoly (np.subc (2 .* np.subc xgrid c1) 1) n1 ;;
  h2 <- signpoly (np.subc (2 .* np.subc ygrid c2) 1) n2 ;;
  f1 <- factorial n1 ;;
  f2 <- factorial n2 ;;
  Ok (h1 * h2, 1 / IZR f1 / IZR f2).

(** [zs = w1 * zs1 + w2 * zs2] *)
Definition weighted_sum (w1 w2 : R) (zs1 zs2 : A) : A :=
  w1 .* zs1 + w2 .* zs2.

(** The last cell: the weighted sum of a 2D Bernstein polynomial and a
    2D integrated sign function, with the cell's constants. *)
Definition weighted_cell (xgrid ygrid : A) : result A :=
  let '(k1, k2) := (2, 3)%Z in
  let '(n1, n2) := (3, 4)%Z in
  let '(m1, m2) := (2, 3)%Z in
  let '(c1, c2) := (0.4, 0.6) in
  let w1 := 2 in
  f1 <- factorial m1 ;;
  f2 <- factorial m2 ;;
  let w2 := (2 * IZR f1 * IZR f2)%R in
  zs1 <- bernstein2d xgrid ygrid (k1, k2) (n1, n2) ;;
  h1 <- signpoly (np.subc xgrid c1) m1 ;;
  h2 <- signpoly (np.subc ygrid c2) m2 ;;
  let zs2 := h1 * h2 in
  Ok (weighted_sum w1 w2 zs1 zs2).

End Notebook.

(** ** Sums over the index [k] *)

(** Python's [range(n)]. *)
Definition range (n : Z) : list Z := map Z.of_nat (seq 0 (Z.to_nat n)).

(** Python's [sum(f(k) for k in ks)]: the terms are added from the left,
    starting from [0]; the first exception raised by a term ends the sum. *)
Definition py_sum (f : Z -> result R) (ks : list Z) : result R :=
  fold_left (fun acc k => a <- acc ;; b <- f k ;; Ok (a + b)) ks (Ok 0).

(** The partition-of-unity test:
    [sum(bernstein(x, k, n) for k in range(n+1))]. *)
Definition bernstein_sum (x : R) (n : Z) : result R :=
  py_sum (fun k => bernstein x k n) (range (n + 1)).

(** ** Reference definitions, in the words of the specification *)

(** The Bernstein basis polynomial [C(n,k) x^k (1-x)^(n-k)], with the
    binomial coefficient [C n k = n! / (k! (n-k)!)] of the Standard
    Library. *)
Definition Bpoly (k n : nat) (x : R) : R := C n k * x ^ k * (1 - x) ^ (n - k).

(** The same on integer indices, extended by the zero function wherever
    [0 <= k <= n] fails. *)
Definition Bext (k n : Z) (x : R) : R :=
  if ((0 <=? k)%Z && (k <=? n)%Z)%bool
  then Bpoly (Z.to_nat k) (Z.to_nat n) x
  else 0.

(** The derivative formula [n (B(k-1,n-1)(x) - B(k,n-1)(x))] with the
    zero-extended terms. *)
Definition DBext (k n : Z) (x : R) : R :=
  IZR n * (Bext (k - 1) (n - 1) x - Bext k (n - 1) x).

(** The integrated sign function [(1/n!) x^n sign(x)]. *)
Definition Hpoly (n : nat) (x : R) : R := 1 / INR (fact n) * x ^ n * sign x.

(** The colour bound [vscale = 1/(n1! n2!)] of [plot_signpoly2d] bounds
    the plotted value at the point [(x, y)] of the unit square, for orders
    in [[0, 5]] and shifts in [[-1, 1]]. *)
Definition vscale_claim (x y : R) (n1 n2 : Z) (c1 c2 : R) : Prop :=
  0 <= x <= 1 -> 0 <= y <= 1 ->
  (0 <= n1 <= 5)%Z -> (0 <= n2 <= 5)%Z ->
  -1 <= c1 <= 1 -> -1 <= c2 <= 1 ->
  exists zs v,
    plot_signpoly2d x y n1 n2 c1 c2 = Ok (zs, v)
    /\ v = 1 / (INR (fact (Z.to_nat n1)) * INR (fact (Z.to_nat n2)))
    /\ Rabs zs <= v.

(** ** Sample grids and the plotting cells *)

(** The vector [f 0; f 1; ...; f (n-1)]. *)
Fixpoint vec_init {A : Type} (f : nat -> A) (n : nat) : Vector.t A n :=
  match n with
  | O => Vector.nil A
  | S m => Vector.cons A (f O) m (vec_init (fun i => f (S i)) m)
  end.

(** [np.linspace(start, stop, num)] with the default [endpoint=True]:
    the samples [i * step + start], [step = (stop - start) / (num - 1)].
    numpy stores [stop] itself in the last cell, which is the same real
    number; for [num = 1] the only sample is [start]. *)
Definition linspace (start stop : R) (num : nat) : Vector.t R num :=
  vec_init (fun i => INR i * ((stop - start) / INR (num - 1)) + start) num.

(** [np.meshgrid(xs, ys)] with the default [indexing='xy']: two arrays of
    shape [(len(ys), len(xs))], the first repeating [xs] in every row, the
    second repeating [ys] in every column. *)
Definition meshgrid {nx ny : nat} (xs : Vector.t R nx) (ys : Vector.t R ny)
  : Vector.t (Vector.t R nx) ny * Vector.t (Vector.t R nx) ny :=
  (Vector.const xs ny, Vector.map (fun y => Vector.const y nx) ys).

(** [resolution = 100] *)
Definition resolution : nat := 100.

(** The grid set-up shared by the 2D cells:
    [xs = np.linspace(domain[0], domain[1], resolution)], the same for
    [ys], and [xgrid, ygrid = np.meshgrid(xs, ys)], with
    [domain = [0.0, 1.0, 0.0, 1.0]]. *)
Definition unit_grid
  : Vector.t (Vector.t R resolution) resolution
    * Vector.t (Vector.t R resolution) resolution :=
  let xs := linspace 0 1 resolution in
  let ys := linspace 0 1 resolution in
  meshgrid xs ys.

Section Cells_of_the_notebook.
Context {A : Type} `{NDArray A}.
Local Open Scope nd_scope.

(** The values handed to [plt.plot] by
    [for n in range(5): for k in range(n+1): plt.plot(xs, bernstein(xs, k, n))]. *)
Definition bernstein_curves (xs : A) : list (result A) :=
  flat_map (fun n => map (fun k => bernstein xs k n) (range (n + 1))) (range 5).

(** The same loop over [Dbernstein(xs, k, n)]. *)
Definition Dbernstein_curves (xs : A) : list (result A) :=
  flat_map (fun n => map (fun k => Dbernstein xs k n) (range (n + 1))) (range 5).

(** One round of [for n in range(5)] in the cell of the shifted integrated
    sign functions: the curve [signpoly(2*xs-1, n)] and the limits given to
    [plt.ylim]. *)
Definition signpoly_curve (xs : A) (n : Z) : result (A * (R * R)) :=
  h <- signpoly (np.subc (2 .* xs) 1) n ;;
  f1 <- factorial n ;;
  f2 <- factorial n ;;
  Ok (h, (-1.1 / IZR f1, 1.1 / IZR f2)).

Definition signpoly_curves (xs : A) : list (result (A * (R * R))) :=
  map (signpoly_curve xs) (range 5).

End Cells_of_the_notebook.

(** The cell that plots the 2D Bernstein polynomial and its partial
    derivatives on the grid, with [n = [3, 4]] and [k = [2, 3]]. *)
Definition bernstein2d_cell
  : result (Vector.t (Vector.t R resolution) resolution
            * (Vector.t (Vector.t R resolution) resolution
               * Vector.t (Vector.t R resolution) resolution)) :=
  let '(xgrid, ygrid) := unit_grid in
  let n := (3, 4)%Z in
  let k := (2, 3)%Z in
  zs <- bernstein2d xgrid ygrid k n ;;
  d <- Dbernstein2d xgrid ygrid k n ;;
  Ok (zs, d).

(** ** Python floats: a power out of the range of a double *)





(** ** Binomial coefficients *)

Lemma choose_above (n k : nat) : (n < k)%nat -> choose n k = 0%nat.
Proof.
  revert k; induction n as [|n IH]; intros [|k] Hk; simpl; try lia.
  rewrite !IH by lia. reflexivity.
Qed.

Lemma choose_fact (n k : nat) :
  (k <= n)%nat -> (choose n k * (fact k * fact (n - k)) = fact n)%nat.
Proof.
  revert k; induction n as [|n IH]; intros [|k] Hk; try lia.
  - simpl. lia.
  - rewrite Nat.sub_0_r. change (choose (S n) 0) with 1%nat.
    change (fact 0) with 1%nat. lia.
  - change (choose (S n) (S k)) with (choose n k + choose n (S k))%nat.
    replace (S n - S k)%nat with (n - k)%nat by lia.
    assert (H1 := IH k ltac:(lia)).
    destruct (Nat.eq_dec k n) as [->|Hne].
    + rewrite (choose_above n (S n)) by lia.
      rewrite Nat.add_0_r, (fact_simpl n).
      rewrite <- H1 at 2. ring.
    + assert (H2 := IH (S k) ltac:(lia)).
      replace (n - k)%nat with (S (n - S k)) in * by lia.
      rewrite (fact_simpl n), (fact_simpl k) in *.
      rewrite (fact_simpl (n - S k)) in *.
      set (m := S (n - S k)) in *.
      transitivity
        (S k * (choose n k * (fact k * (m * fact (n - S k))))
         + m * (choose n (S k) * (S k * fact k * fact (n - S k))))%nat;
        [ring|].
      rewrite H1, H2. replace (S n) with (S k + m)%nat by (unfold m; lia).
      ring.
Qed.

Lemma INR_choose (n k : nat) : (k <= n)%nat -> INR (choose n k) = C n k.
Proof.
  intros Hk. unfold C.
  rewrite <- (choose_fact n k Hk), !mult_INR.
  field. split; apply INR_fact_neq_0.
Qed.

Lemma choose_absorb (n k : nat) :
  (k <= n)%nat -> (S k * choose (S n) (S k) = S n * choose n k)%nat.
Proof.
  intros Hk.
  assert (H1 := choose_fact (S n) (S k) ltac:(lia)).
  assert (H2 := choose_fact n k Hk).
  replace (S n - S k)%nat with (n - k)%nat in H1 by lia.
  rewrite (fact_simpl n), (fact_simpl k) in H1.
  apply (Nat.mul_cancel_r _ _ (fact k * fact (n - k))).
  - pose proof (lt_O_fact k). pose proof (lt_O_fact (n - k)). nia.
  - transitivity (S n * fact n)%nat; [rewrite <- H1; ring | rewrite <- H2; ring].
Qed.

Lemma choose_lower (n k : nat) :
  (k <= n)%nat -> ((S n - k) * choose (S n) k = S n * choose n k)%nat.
Proof.
  intros Hk.
  assert (H1 := choose_fact (S n) k ltac:(lia)).
  assert (H2 := choose_fact n k Hk).
  replace (S n - k)%nat with (S (n - k)) in * by lia.
  rewrite (fact_simpl n), (fact_simpl (n - k)) in H1.
  apply (Nat.mul_cancel_r _ _ (fact k * fact (n - k))).
  - pose proof (lt_O_fact k). pose proof (lt_O_fact (n - k)). nia.
  - transitivity (S n * fact n)%nat; [rewrite <- H1; ring | rewrite <- H2; ring].
Qed.

Lemma C_absorb (n k : nat) :
  (k <= n)%nat -> INR (S k) * C (S n) (S k) = INR (S n) * C n k.
Proof.
  intros Hk. rewrite <- !INR_choose by lia. rewrite <- !mult_INR.
  f_equal. now apply choose_absorb.
Qed.

Lemma C_lower (n k : nat) :
  (k <= n)%nat -> INR (S n - k) * C (S n) k = INR (S n) * C n k.
Proof.
  intros Hk. rewrite <- !INR_choose by lia. rewrite <- !mult_INR.
  f_equal. now apply choose_lower.
Qed.

Lemma C_zero (n : nat) : C n 0 = 1.
Proof. rewrite <- INR_choose by lia. destruct n; reflexivity. Qed.

Lemma C_diag (n : nat) : C n n = 1.
Proof.
  unfold C. rewrite Nat.sub_diag. change (fact 0) with 1%nat.
  simpl INR. field. apply INR_fact_neq_0.
Qed.

(** ** Derivative of the basis polynomials *)

Lemma derivable_pt_lim_pointwise (f g : R -> R) (x l : R) :
  (forall t, f t = g t) -> derivable_pt_lim f x l -> derivable_pt_lim g x l.
Proof.
  intros Hfg Hf eps Heps. destruct (Hf eps Heps) as [delta Hd].
  exists delta. intros h Hh0 Hh. rewrite <- !Hfg. now apply Hd.
Qed.

Lemma deriv_monomial (c : R) (k m : nat) (x : R) :
  derivable_pt_lim (fun t => c * t ^ k * (1 - t) ^ m) x
    (c * (INR k * x ^ pred k) * (1 - x) ^ m
     + c * x ^ k * (INR m * (1 - x) ^ pred m * (0 - 1))).
Proof.
  assert (D1 : derivable_pt_lim (fun t => c * t ^ k) x (c * (INR k * x ^ pred k))).
  { apply (derivable_pt_lim_scal (fun t => t ^ k) c x).
    apply derivable_pt_lim_pow. }
  assert (D2 : derivable_pt_lim (fun t => (1 - t) ^ m) x
                 (INR m * (1 - x) ^ pred m * (0 - 1))).
  { apply (derivable_pt_lim_comp (fun t => 1 - t) (fun u => u ^ m)).
    - apply (derivable_pt_lim_minus (fct_cte 1) id).
      + apply derivable_pt_lim_const.
      + apply derivable_pt_lim_id.
    - apply derivable_pt_lim_pow. }
  exact (derivable_pt_lim_mult _ _ x _ _ D1 D2).
Qed.

Lemma Bpoly_deriv (k n : nat) (x : R) :
  (k <= n)%nat ->
  derivable_pt_lim (Bpoly k n) x
    (INR n * ((if (k =? 0)%nat then 0 else Bpoly (k - 1) (n - 1) x)
              - (if (k =? n)%nat then 0 else Bpoly k (n - 1) x))).
Proof.
  intros Hk.
  assert (D := deriv_monomial (C n k) k (n - k) x).
  unfold Bpoly at 1.
  match type of D with derivable_pt_lim _ _ ?l =>
    match goal with |- derivable_pt_lim _ _ ?l' =>
      replace l' with l; [exact D|] end end.
  unfold Bpoly.
  destruct k as [|k].
  - rewrite Nat.eqb_refl; simpl INR; simpl pow. rewrite C_zero, Nat.sub_0_r.
    destruct n as [|n].
    + simpl. ring.
    + rewrite C_zero. change (S n =? 0)%nat with false; cbv iota.
      replace (0 =? S n)%nat with false by reflexivity.
      replace (S n - 1)%nat with n by lia. rewrite Nat.sub_0_r.
      simpl pred. simpl pow. ring.
  - destruct n as [|n]; [lia|].
    change (S k =? 0)%nat with false; cbv iota.
    replace (S k - 1)%nat with k by lia.
    replace (S n - 1)%nat with n by lia.
    replace (S n - S k)%nat with (n - k)%nat by lia.
    simpl pred.
    destruct (Nat.eqb_spec (S k) (S n)) as [E|E].
    + injection E as ->. rewrite Nat.sub_diag. simpl INR at 2.
      rewrite !C_diag. simpl pow. ring.
    + assert (Hk' : (S k <= n)%nat) by lia.
      assert (E1 := C_absorb n k ltac:(lia)).
      assert (E2 := C_lower n (S k) Hk').
      replace (S n - S k)%nat with (n - k)%nat in E2 by lia.
      replace (pred (n - k)) with (n - S k)%nat by lia.
      transitivity ((INR (S k) * C (S n) (S k)) * x ^ k * (1 - x) ^ (n - k)
                    - (INR (n - k) * C (S n) (S k)) * x ^ S k * (1 - x) ^ (n - S k));
        [ring|].
      rewrite E1, E2. ring.
Qed.

(** ** Evaluating the numpy expressions cell by cell *)

Lemma powerRZ_to_nat (x : R) (k : Z) :
  (0 <= k)%Z -> powerRZ x k = x ^ Z.to_nat k.
Proof.
  intros Hk. destruct k as [|p|p]; [reflexivity|reflexivity|lia].
Qed.

Lemma index_guard (k n : Z) :
  ((0 <=? k)%Z && (k <=? n)%Z)%bool = true <-> (0 <= k <= n)%Z.
Proof. rewrite andb_true_iff, !Z.leb_le. tauto. Qed.

Lemma index_guard_false (k n : Z) :
  ((0 <=? k)%Z && (k <=? n)%Z)%bool = false <-> ~ (0 <= k <= n)%Z.
Proof. rewrite <- index_guard. destruct (_ && _)%bool; intuition congruence. Qed.

Lemma pair_guard (k n : Z * Z) :
  (np.all (np.zero_le (np.asarray k))
   && np.all (np.le (np.asarray k) (np.asarray n)))%bool = true
  <-> (0 <= fst k <= fst n)%Z /\ (0 <= snd k <= snd n)%Z.
Proof.
  destruct k as [kx ky], n as [nx ny]. cbn.
  rewrite !andb_true_iff, !Z.leb_le. tauto.
Qed.

Section Cells.
Context {A : Type} `{NDArray A}.

Lemma item_scale (c : R) (x : A) i : item (np.scale c x) i = c * item x i.
Proof. exact (item_ufunc1 _ x i). Qed.

Lemma item_rsub (c : R) (x : A) i : item (np.rsub c x) i = c - item x i.
Proof. exact (item_ufunc1 _ x i). Qed.

Lemma item_subc (c : R) (x : A) i : item (np.subc x c) i = item x i - c.
Proof. exact (item_ufunc1 (fun t => t - c) x i). Qed.

Lemma item_power (x : A) (k : Z) i :
  item (np.power x k) i = powerRZ (item x i) k.
Proof. exact (item_ufunc1 _ x i). Qed.

Lemma item_sign (x : A) i : item (np.sign x) i = sign (item x i).
Proof. exact (item_ufunc1 _ x i). Qed.

Lemma item_mul (x y : A) i : item (np.mul x y) i = item x i * item y i.
Proof. exact (item_ufunc2 _ x y i). Qed.

Lemma item_add (x y : A) i : item (np.add x y) i = item x i + item y i.
Proof. exact (item_ufunc2 _ x y i). Qed.

Lemma item_sub (x y : A) i : item (np.sub x y) i = item x i - item y i.
Proof. exact (item_ufunc2 _ x y i). Qed.

End Cells.

Create Rewrite HintDb cells.
#[global] Hint Rewrite @item_scale @item_rsub @item_subc @item_power
  @item_sign @item_mul @item_add @item_sub : cells.

Section Bernstein.
Context {A : Type} `{NDArray A}.

Lemma bernstein_cells (x : A) (k n : Z) :
  (0 <= k <= n)%Z ->
  exists y, bernstein x k n = Ok y
            /\ forall i, item y i = Bpoly (Z.to_nat k) (Z.to_nat n) (item x i).
Proof.
  intros Hk. unfold bernstein.
  rewrite (proj2 (index_guard k n) Hk). cbn [assert bind].
  eexists; split; [reflexivity|]. intros i.
  autorewrite with cells.
  rewrite !powerRZ_to_nat by lia. unfold binom, Bpoly.
  rewrite INR_choose by lia. rewrite Z2Nat.inj_sub by lia. reflexivity.
Qed.


Lemma Bext_inside (k n : Z) (t : R) :
  (0 <= k <= n)%Z -> Bext k n t = Bpoly (Z.to_nat k) (Z.to_nat n) t.
Proof. intros Hk. unfold Bext. now rewrite (proj2 (index_guard k n) Hk). Qed.

Lemma Bext_outside (k n : Z) (t : R) : ~ (0 <= k <= n)%Z -> Bext k n t = 0.
Proof.
  intros Hk. unfold Bext. now rewrite (proj2 (index_guard_false k n) Hk).
Qed.

Lemma Dbernstein_cells (x : A) (k n : Z) :
  (0 <= k <= n)%Z ->
  exists y, Dbernstein x k n = Ok y
            /\ forall i, item y i =
                 IZR n * (Bext (k - 1) (n - 1) (item x i)
                          - Bext k (n - 1) (item x i)).
Proof.
  intros Hk. unfold Dbernstein.
  rewrite (proj2 (index_guard k n) Hk). cbn [assert bind].
  assert (T1 : exists b1,
             (if ((n =? 0)%Z || (k =? 0)%Z)%bool
              then Ok (np.scale 0 x) else bernstein x (k - 1) (n - 1)) = Ok b1
             /\ forall i, item b1 i = Bext (k - 1) (n - 1) (item x i)).
  { destruct ((n =? 0)%Z || (k =? 0)%Z)%bool eqn:E.
    - eexists; split; [reflexivity|]. intros i. autorewrite with cells.
      rewrite Bext_outside; [ring|].
      apply orb_true_iff in E. rewrite !Z.eqb_eq in E. lia.
    - apply orb_false_iff in E. rewrite !Z.eqb_neq in E.
      destruct (bernstein_cells x (k - 1) (n - 1) ltac:(lia)) as (b & -> & Hb).
      exists b; split; [reflexivity|]. intros i.
      rewrite Bext_inside by lia. apply Hb. }
  assert (T2 : exists b2,
             (if ((n =? 0)%Z || (k =? n)%Z)%bool
              then Ok (np.scale 0 x) else bernstein x k (n - 1)) = Ok b2
             /\ forall i, item b2 i = Bext k (n - 1) (item x i)).
  { destruct ((n =? 0)%Z || (k =? n)%Z)%bool eqn:E.
    - eexists; split; [reflexivity|]. intros i. autorewrite with cells.
      rewrite Bext_outside; [ring|].
      apply orb_true_iff in E. rewrite !Z.eqb_eq in E. lia.
    - apply orb_false_iff in E. rewrite !Z.eqb_neq in E.
      destruct (bernstein_cells x k (n - 1) ltac:(lia)) as (b & -> & Hb).
      exists b; split; [reflexivity|]. intros i.
      rewrite Bext_inside by lia. apply Hb. }
  destruct T1 as (b1 & -> & Hb1), T2 as (b2 & -> & Hb2). cbn [bind].
  eexists; split; [reflexivity|]. intros i.
  autorewrite with cells. now rewrite Hb1, Hb2.
Qed.


End Bernstein.

Lemma bernstein_value (t : R) (k n : Z) :
  (0 <= k <= n)%Z ->
  value_or 0 (bernstein t k n) = Bpoly (Z.to_nat k) (Z.to_nat n) t.
Proof.
  intros Hk. destruct (bernstein_cells t k n Hk) as (y & -> & Hy).
  exact (Hy tt).
Qed.

Lemma Bext_derivative (k n : Z) (x : R) :
  (0 <= k <= n)%Z ->
  derivable_pt_lim (fun t => value_or 0 (bernstein t k n)) x
    (IZR n * (Bext (k - 1) (n - 1) x - Bext k (n - 1) x)).
Proof.
  intros Hk.
  apply (derivable_pt_lim_pointwise (Bpoly (Z.to_nat k) (Z.to_nat n))).
  { intros t. symmetry. now apply bernstein_value. }
  assert (D := Bpoly_deriv (Z.to_nat k) (Z.to_nat n) x ltac:(lia)).
  rewrite INR_IZR_INZ, Z2Nat.id in D by lia.
  match type of D with derivable_pt_lim _ _ ?l =>
    match goal with |- derivable_pt_lim _ _ ?l' =>
      replace l' with l; [exact D|] end end.
  f_equal. f_equal.
  - destruct (Nat.eqb_spec (Z.to_nat k) 0) as [E|E].
    + rewrite Bext_outside by lia. reflexivity.
    + rewrite Bext_inside by lia.
      now rewrite Z2Nat.inj_sub, (Z2Nat.inj_sub n) by lia.
  - destruct (Nat.eqb_spec (Z.to_nat k) (Z.to_nat n)) as [E|E].
    + rewrite Bext_outside by lia. reflexivity.
    + rewrite Bext_inside by lia.
      now rewrite (Z2Nat.inj_sub n) by lia.
Qed.

(** ** The integrated sign functions *)

Lemma sign_neg (t : R) : t < 0 -> sign t = -1.
Proof. intros Ht. unfold sign. destruct (Rlt_dec t 0); [reflexivity|lra]. Qed.

Lemma sign_zero : sign 0 = 0.
Proof.
  unfold sign. destruct (Rlt_dec 0 0); [lra|]. reflexivity.
Qed.

Lemma sign_pos (t : R) : 0 < t -> sign t = 1.
Proof.
  intros Ht. unfold sign.
  destruct (Rlt_dec t 0); [lra|]. destruct (Rlt_dec 0 t); [reflexivity|lra].
Qed.

Lemma sign_cases (t : R) :
  (t < 0 /\ sign t = -1) \/ (t = 0 /\ sign t = 0) \/ (0 < t /\ sign t = 1).
Proof.
  destruct (Rtotal_order t 0) as [Ht|[Ht|Ht]].
  - left. split; [assumption|now apply sign_neg].
  - right; left. subst t. split; [reflexivity|apply sign_zero].
  - right; right. split; [assumption|now apply sign_pos].
Qed.

Lemma sign_opp (t : R) : sign (- t) = - sign t.
Proof.
  destruct (sign_cases t) as [[Ht ->]|[[Ht ->]|[Ht ->]]].
  - rewrite sign_pos by lra. ring.
  - subst t. rewrite Ropp_0, sign_zero. reflexivity.
  - rewrite sign_neg by lra. reflexivity.
Qed.

Lemma Rabs_sign_le (t : R) : Rabs (sign t) <= 1.
Proof.
  destruct (sign_cases t) as [[_ ->]|[[_ ->]|[_ ->]]];
    unfold Rabs; destruct (Rcase_abs _); lra.
Qed.

Lemma factorial_nonneg (n : Z) :
  (0 <= n)%Z -> factorial n = Ok (Z.of_nat (fact (Z.to_nat n))).
Proof.
  intros Hn. unfold factorial.
  destruct (Z.ltb_spec n 0); [lia|reflexivity].
Qed.

Lemma factorial_negative (n : Z) : (n < 0)%Z -> factorial n = Err ValueError.
Proof.
  intros Hn. unfold factorial.
  destruct (Z.ltb_spec n 0); [reflexivity|lia].
Qed.

Section Signpoly.
Context {A : Type} `{NDArray A}.

Lemma signpoly_cells (x : A) (n : Z) :
  (0 <= n)%Z ->
  exists y, signpoly x n = Ok y
            /\ forall i, item y i = Hpoly (Z.to_nat n) (item x i).
Proof.
  intros Hn. unfold signpoly. rewrite factorial_nonneg by assumption.
  cbn [bind]. eexists; split; [reflexivity|]. intros i.
  autorewrite with cells. rewrite powerRZ_to_nat by assumption.
  unfold Hpoly. now rewrite <- INR_IZR_INZ.
Qed.

End Signpoly.

Lemma signpoly_scalar (x : R) (n : Z) :
  (0 <= n)%Z -> signpoly x n = Ok (Hpoly (Z.to_nat n) x).
Proof.
  intros Hn. destruct (signpoly_cells x n Hn) as (y & -> & Hy).
  f_equal. exact (Hy tt).
Qed.

Lemma Hpoly_opp (n : nat) (x : R) : Hpoly n (- x) = - Hpoly n x * (-1) ^ n.
Proof.
  unfold Hpoly. rewrite sign_opp.
  replace (- x) with (-1 * x) by ring. rewrite Rpow_mult_distr. ring.
Qed.

Lemma Hpoly_bound (n : nat) (u : R) :
  Rabs u <= 1 -> Rabs (Hpoly n u) <= 1 / INR (fact n).
Proof.
  intros Hu. unfold Hpoly.
  assert (Hf := INR_fact_lt_0 n).
  assert (Hinv : 0 < 1 / INR (fact n)).
  { apply Rdiv_lt_0_compat; [lra|assumption]. }
  rewrite !Rabs_mult, (Rabs_pos_eq (1 / INR (fact n))) by lra.
  rewrite <- RPow_abs.
  assert (Hp : 0 <= Rabs u ^ n <= 1).
  { split; [apply pow_le, Rabs_pos|].
    rewrite <- (pow1 n). apply pow_incr. split; [apply Rabs_pos|assumption]. }
  assert (Hs := Rabs_sign_le u). assert (Hs0 := Rabs_pos (sign u)).
  rewrite Rmult_assoc.
  rewrite <- (Rmult_1_r (1 / INR (fact n))) at 2.
  apply Rmult_le_compat_l; [lra|]. nra.
Qed.

(** ** Sums over the index [k] *)

Lemma fold_sum_ok (f : Z -> result R) (g : Z -> R) (ks : list Z) (a : R) :
  (forall k, In k ks -> f k = Ok (g k)) ->
  fold_left (fun acc k => a <- acc ;; b <- f k ;; Ok (a + b)) ks (Ok a)
  = Ok (fold_left Rplus (map g ks) a).
Proof.
  revert a; induction ks as [|k ks IH]; intros a Hf; [reflexivity|].
  cbn [fold_left map bind]. rewrite (Hf k (or_introl eq_refl)). cbn [bind].
  apply IH. intros k' Hk'. apply Hf. now right.
Qed.

Lemma fold_range_sum (g : Z -> R) (m : nat) :
  fold_left Rplus (map g (map Z.of_nat (seq 0 (S m)))) 0
  = sum_f_R0 (fun i => g (Z.of_nat i)) m.
Proof.
  induction m as [|m IH].
  - cbn. ring.
  - rewrite seq_S, !map_app, fold_left_app, IH. reflexivity.
Qed.

Lemma bernstein_scalar (x : R) (k n : Z) :
  (0 <= k <= n)%Z -> bernstein x k n = Ok (Bpoly (Z.to_nat k) (Z.to_nat n) x).
Proof.
  intros Hk. destruct (bernstein_cells x k n Hk) as (y & -> & Hy).
  f_equal. exact (Hy tt).
Qed.

Lemma Bpoly_sum (n : nat) (x : R) : sum_f_R0 (fun i => Bpoly i n x) n = 1.
Proof.
  unfold Bpoly. rewrite <- binomial.
  replace (x + (1 - x)) with 1 by ring. apply pow1.
Qed.

Lemma bernstein_sum_one (x : R) (n : Z) :
  (0 <= n)%Z -> bernstein_sum x n = Ok 1.
Proof.
  intros Hn. unfold bernstein_sum, py_sum, range.
  rewrite (fold_sum_ok _ (fun k => Bpoly (Z.to_nat k) (Z.to_nat n) x)).
  - f_equal. replace (Z.to_nat (n + 1)) with (S (Z.to_nat n)) by lia.
    rewrite fold_range_sum. rewrite <- (Bpoly_sum (Z.to_nat n) x).
    apply sum_eq. intros i _. now rewrite Nat2Z.id.
  - intros k Hk. apply in_map_iff in Hk. destruct Hk as (i & <- & Hi).
    apply in_seq in Hi. apply bernstein_scalar. lia.
Qed.

Lemma Bpoly_nonneg (k n : nat) (x : R) :
  (k <= n)%nat -> 0 <= x <= 1 -> 0 <= Bpoly k n x.
Proof.
  intros Hk Hx. unfold Bpoly. rewrite <- INR_choose by assumption.
  apply Rmult_le_pos; [apply Rmult_le_pos|].
  - apply pos_INR.
  - apply pow_le; lra.
  - apply pow_le; lra.
Qed.

Lemma sum_nonneg (f : nat -> R) (N : nat) :
  (forall i, (i <= N)%nat -> 0 <= f i) -> 0 <= sum_f_R0 f N.
Proof.
  induction N as [|N IH]; intros Hf; simpl.
  - apply Hf. lia.
  - assert (0 <= sum_f_R0 f N) by (apply IH; intros i Hi; apply Hf; lia).
    assert (0 <= f (S N)) by (apply Hf; lia). lra.
Qed.

Lemma term_le_sum (f : nat -> R) (N k : nat) :
  (forall i, (i <= N)%nat -> 0 <= f i) -> (k <= N)%nat -> f k <= sum_f_R0 f N.
Proof.
  induction N as [|N IH]; intros Hf Hk.
  - replace k with 0%nat by lia. simpl. lra.
  - simpl. destruct (Nat.eq_dec k (S N)) as [->|Hne].
    + assert (0 <= sum_f_R0 f N).
      { apply sum_nonneg. intros i Hi. apply Hf. lia. }
      lra.
    + assert (f k <= sum_f_R0 f N).
      { apply IH; [intros i Hi; apply Hf; lia | lia]. }
      assert (0 <= f (S N)) by (apply Hf; lia). lra.
Qed.

Lemma Bpoly_le_1 (k n : nat) (x : R) :
  (k <= n)%nat -> 0 <= x <= 1 -> Bpoly k n x <= 1.
Proof.
  intros Hk Hx. rewrite <- (Bpoly_sum n x).
  apply (term_le_sum (fun i => Bpoly i n x)); [|assumption].
  intros i Hi. now apply Bpoly_nonneg.
Qed.

(** ** Tensor products *)

Section Tensor.
Context {A : Type} `{NDArray A}.

Lemma bernstein2d_cells (X Y : A) (k n : Z * Z) :
  (0 <= fst k <= fst n)%Z -> (0 <= snd k <= snd n)%Z ->
  exists bx by_ z,
    bernstein X (fst k) (fst n) = Ok bx
    /\ bernstein Y (snd k) (snd n) = Ok by_
    /\ bernstein2d X Y k n = Ok z
    /\ forall i, item z i = item bx i * item by_ i.
Proof.
  intros Hx Hy. unfold bernstein2d.
  rewrite (proj2 (pair_guard k n) (conj Hx Hy)). cbn [assert bind].
  destruct (bernstein_cells X _ _ Hx) as (bx & -> & _).
  destruct (bernstein_cells Y _ _ Hy) as (by_ & -> & _).
  cbn [bind]. exists bx, by_. eexists. repeat split.
  intros i. now autorewrite with cells.
Qed.

Lemma Dbernstein2d_cells (X Y : A) (k n : Z * Z) :
  (0 <= fst k <= fst n)%Z -> (0 <= snd k <= snd n)%Z ->
  exists bx by_ dbx dby dx dy,
    bernstein X (fst k) (fst n) = Ok bx
    /\ bernstein Y (snd k) (snd n) = Ok by_
    /\ Dbernstein X (fst k) (fst n) = Ok dbx
    /\ Dbernstein Y (snd k) (snd n) = Ok dby
    /\ Dbernstein2d X Y k n = Ok (dx, dy)
    /\ forall i, item dx i = item dbx i * item by_ i
                 /\ item dy i = item bx i * item dby i.
Proof.
  intros Hx Hy. unfold Dbernstein2d.
  rewrite (proj2 (pair_guard k n) (conj Hx Hy)). cbn [assert bind].
  destruct (bernstein_cells X _ _ Hx) as (bx & -> & _).
  destruct (bernstein_cells Y _ _ Hy) as (by_ & -> & _).
  destruct (Dbernstein_cells X _ _ Hx) as (dbx & -> & _).
  destruct (Dbernstein_cells Y _ _ Hy) as (dby & -> & _).
  cbn [bind]. exists bx, by_, dbx, dby. do 2 eexists. repeat split.
  all: now autorewrite with cells.
Qed.



(** ** The interactive heatmap and the weighted sum *)

Lemma plot_signpoly2d_cells (X Y : A) (n1 n2 : Z) (c1 c2 : R) :
  (0 <= n1)%Z -> (0 <= n2)%Z ->
  exists zs v,
    plot_signpoly2d X Y n1 n2 c1 c2 = Ok (zs, v)
    /\ v = 1 / (INR (fact (Z.to_nat n1)) * INR (fact (Z.to_nat n2)))
    /\ forall i, item zs i
                 = Hpoly (Z.to_nat n1) (2 * (item X i - c1) - 1)
                   * Hpoly (Z.to_nat n2) (2 * (item Y i - c2) - 1).
Proof.
  intros H1 H2. unfold plot_signpoly2d.
  destruct (signpoly_cells (np.subc (np.scale 2 (np.subc X c1)) 1) n1 H1)
    as (h1 & -> & Hh1).
  destruct (signpoly_cells (np.subc (np.scale 2 (np.subc Y c2)) 1) n2 H2)
    as (h2 & -> & Hh2).
  rewrite !factorial_nonneg by assumption. cbn [bind].
  do 2 eexists. split; [reflexivity|]. split.
  - rewrite <- !INR_IZR_INZ. field.
    split; apply INR_fact_neq_0.
  - intros i. autorewrite with cells. rewrite Hh1, Hh2.
    now autorewrite with cells.
Qed.

Lemma weighted_sum_cells (w1 w2 : R) (zs1 zs2 : A) i :
  item (weighted_sum w1 w2 zs1 zs2) i = w1 * item zs1 i + w2 * item zs2 i.
Proof. unfold weighted_sum. now autorewrite with cells. Qed.

End Tensor.

Lemma plot_signpoly2d_scalar (x y : R) (n1 n2 : Z) (c1 c2 : R) :
  (0 <= n1)%Z -> (0 <= n2)%Z ->
  exists zs v,
    plot_signpoly2d x y n1 n2 c1 c2 = Ok (zs, v)
    /\ v = 1 / (INR (fact (Z.to_nat n1)) * INR (fact (Z.to_nat n2)))
    /\ zs = Hpoly (Z.to_nat n1) (2 * (x - c1) - 1)
            * Hpoly (Z.to_nat n2) (2 * (y - c2) - 1).
Proof.
  intros H1 H2.
  destruct (plot_signpoly2d_cells x y n1 n2 c1 c2 H1 H2) as (zs & v & E & Hv & Hz).
  exists zs, v. repeat split; [assumption|assumption|exact (Hz tt)].
Qed.

(** An array argument: three sample points on one axis. *)
Example bernstein_on_array :
  let xs := Vector.cons R 0 _ (Vector.cons R 0.5 _ (Vector.cons R 1 _ (Vector.nil R))) in
  exists ys, bernstein xs 2 3 = Ok ys
             /\ item ys (Fin.F1, tt) = 0
             /\ item ys (Fin.FS Fin.F1, tt) = 0.375
             /\ item ys (Fin.FS (Fin.FS Fin.F1), tt) = 0.
Proof.
  intros xs.
  destruct (bernstein_cells xs 2 3 ltac:(lia)) as (ys & E & Hys).
  exists ys. split; [exact E|].
  change (Z.to_nat 2) with 2%nat in Hys. change (Z.to_nat 3) with 3%nat in Hys.
  rewrite !Hys. unfold Bpoly, C. cbn. repeat split; lra.
Qed.

(** ** Python floats *)





(** * The claims *)

(** C1.  For integers [0 <= k <= n], [bernstein(x, k, n)] returns, for a
    scalar [x] and cell by cell for an array [x], the value
    [C(n,k) * x^k * (1-x)^(n-k)], where [C(n,k) = n!/(k!(n-k)!)]; in
    particular [bernstein(0.5, 2, 3) = 0.375]. *)
Theorem bernstein_spec {A : Type} `{NDArray A} (x : A) (k n : Z) :
  (0 <= k <= n)%Z ->
  (exists y, bernstein x k n = Ok y
     /\ forall i, item y i
                  = C (Z.to_nat n) (Z.to_nat k) * item x i ^ Z.to_nat k
                    * (1 - item x i) ^ (Z.to_nat n - Z.to_nat k))
  /\ bernstein 0.5 2 3 = Ok 0.375.
Proof.
  intros Hk. split.
  - exact (bernstein_cells x k n Hk).
  - rewrite bernstein_scalar by lia. f_equal. unfold Bpoly, C.
    change (Z.to_nat 3) with 3%nat. change (Z.to_nat 2) with 2%nat.
    simpl. lra.
Qed.

Lemma bernstein_spec_witness :
  (0 <= 2 <= 3)%Z
  /\ (exists y, bernstein 0.5 2 3 = Ok y
        /\ forall i : unit, item y i
             = C (Z.to_nat 3) (Z.to_nat 2) * item 0.5 i ^ Z.to_nat 2
               * (1 - item 0.5 i) ^ (Z.to_nat 3 - Z.to_nat 2))
  /\ bernstein 0.5 2 3 = Ok 0.375.
Proof.
  assert (Hk : (0 <= 2 <= 3)%Z) by lia.
  split; [exact Hk | exact (bernstein_spec 0.5 2 3 Hk)].
Defined.

(** C2.  For integers [0 <= k <= n], [Dbernstein(x, k, n)] returns
    [n * (B(k-1,n-1)(x) - B(k,n-1)(x))], where [B] agrees with
    [bernstein] on valid indices, the first term is zero when [k = 0],
    the second is zero when [k = n] and both are zero when [n = 0]; the
    returned value is the derivative of [bernstein(., k, n)] at [x]. *)
Theorem Dbernstein_spec {A : Type} `{NDArray A} (x : A) (k n : Z) :
  (0 <= k <= n)%Z ->
  (forall (t : R) (k' n' : Z),
      (0 <= k' <= n')%Z -> bernstein t k' n' = Ok (Bext k' n' t))
  /\ exists y, Dbernstein x k n = Ok y
     /\ forall i,
        item y i = IZR n * (Bext (k - 1) (n - 1) (item x i)
                            - Bext k (n - 1) (item x i))
        /\ (k = 0%Z -> Bext (k - 1) (n - 1) (item x i) = 0)
        /\ (k = n -> Bext k (n - 1) (item x i) = 0)
        /\ (n = 0%Z -> Bext (k - 1) (n - 1) (item x i) = 0
                       /\ Bext k (n - 1) (item x i) = 0)
        /\ derivable_pt_lim (fun t => value_or 0 (bernstein t k n))
             (item x i) (item y i).
Proof.
  intros Hk. split.
  - intros t k' n' Hk'. rewrite Bext_inside by assumption.
    now apply bernstein_scalar.
  - destruct (Dbernstein_cells x k n Hk) as (y & Hy & Hcells).
    exists y. split; [assumption|]. intros i. repeat split.
    + apply Hcells.
    + intros ->. apply Bext_outside. lia.
    + intros ->. apply Bext_outside. lia.
    + apply Bext_outside. lia.
    + apply Bext_outside. lia.
    + rewrite Hcells. now apply Bext_derivative.
Qed.

Lemma Dbernstein_spec_witness :
  (0 <= 2 <= 3)%Z
  /\ exists y, Dbernstein 0.5 2 3 = Ok y
     /\ derivable_pt_lim (fun t => value_or 0 (bernstein t 2 3)) 0.5 y.
Proof.
  assert (Hk : (0 <= 2 <= 3)%Z) by lia.
  split; [exact Hk|].
  destruct (Dbernstein_spec 0.5 2 3 Hk) as (_ & y & Hy & Hcells).
  exists y. split; [exact Hy|]. exact (proj2 (proj2 (proj2 (proj2 (Hcells tt))))).
Defined.

(** C3.  For a non-negative integer [n], [signpoly(x, n)] returns
    [(1/n!) * x^n * sign(x)] cell by cell, with [sign] the three-valued
    signum; hence [signpoly(0, n) = 0] for [n >= 1], [signpoly(t, 0)] is
    [-1], [0], [1] for [t < 0], [t = 0], [t > 0], and
    [signpoly(1, 2) = 0.5], [signpoly(-1, 2) = -0.5]. *)
Theorem signpoly_spec {A : Type} `{NDArray A} (x : A) (n : Z) (t : R) :
  (0 <= n)%Z ->
  (exists y, signpoly x n = Ok y
     /\ forall i, item y i
                  = 1 / INR (fact (Z.to_nat n)) * item x i ^ Z.to_nat n
                    * sign (item x i))
  /\ ((t < 0 /\ sign t = -1) \/ (t = 0 /\ sign t = 0) \/ (0 < t /\ sign t = 1))
  /\ ((1 <= n)%Z -> signpoly 0 n = Ok 0)
  /\ (t < 0 -> signpoly t 0 = Ok (-1))
  /\ signpoly 0 0 = Ok 0
  /\ (0 < t -> signpoly t 0 = Ok 1)
  /\ signpoly 1 2 = Ok 0.5
  /\ signpoly (-1) 2 = Ok (-0.5).
Proof.
  intros Hn. split; [exact (signpoly_cells x n Hn)|].
  split; [exact (sign_cases t)|].
  repeat split.
  - intros Hn1. rewrite signpoly_scalar by assumption. f_equal.
    unfold Hpoly. rewrite sign_zero. ring.
  - intros Ht. rewrite signpoly_scalar by lia. f_equal.
    unfold Hpoly. rewrite sign_neg by assumption. simpl. field.
  - rewrite signpoly_scalar by lia. f_equal.
    unfold Hpoly. rewrite sign_zero. ring.
  - intros Ht. rewrite signpoly_scalar by lia. f_equal.
    unfold Hpoly. rewrite sign_pos by assumption. simpl. field.
  - rewrite signpoly_scalar by lia. f_equal.
    unfold Hpoly. rewrite sign_pos by lra. simpl. lra.
  - rewrite signpoly_scalar by lia. f_equal.
    unfold Hpoly. rewrite sign_neg by lra. simpl. lra.
Qed.

Lemma signpoly_spec_witness :
  (0 <= 2)%Z
  /\ signpoly 0 2 = Ok 0
  /\ signpoly 1 2 = Ok 0.5
  /\ signpoly (-1) 2 = Ok (-0.5).
Proof.
  assert (Hn : (0 <= 2)%Z) by lia.
  assert (Hn1 : (1 <= 2)%Z) by lia.
  split; [exact Hn|].
  destruct (signpoly_spec 0 2 1 Hn) as (_ & _ & H0 & _ & _ & _ & Hp & Hm).
  split; [exact (H0 Hn1)|]. split; [exact Hp | exact Hm].
Defined.




(** C5.  For every integer [0 <= n <= 10] and every [x] in [[0,1]], the
    sum over [k = 0..n] of [bernstein(x, k, n)] is [1]. *)
Theorem partition_of_unity (x : R) (n : Z) :
  (0 <= n <= 10)%Z -> 0 <= x <= 1 -> bernstein_sum x n = Ok 1.
Proof. intros Hn _. apply bernstein_sum_one. lia. Qed.

Lemma partition_of_unity_witness :
  (0 <= 4 <= 10)%Z /\ 0 <= 0.25 <= 1 /\ bernstein_sum 0.25 4 = Ok 1.
Proof.
  assert (Hn : (0 <= 4 <= 10)%Z) by lia.
  assert (Hx : 0 <= 0.25 <= 1) by lra.
  split; [exact Hn|]. split; [exact Hx|].
  exact (partition_of_unity 0.25 4 Hn Hx).
Defined.

(** C6.  For index pairs with [0 <= kx <= nx] and [0 <= ky <= ny] and two
    grids of one shape, [bernstein2d] returns cell by cell
    [B(kx,nx)(X) * B(ky,ny)(Y)], and [Dbernstein2d] returns the pair
    [(DB(kx,nx)(X) * B(ky,ny)(Y), B(kx,nx)(X) * DB(ky,ny)(Y))], where [B]
    and [DB] are the values of [bernstein] and [Dbernstein]. *)
Theorem tensor_product_spec {A : Type} `{NDArray A}
    (X Y : A) (kx ky nx ny : Z) :
  (0 <= kx <= nx)%Z -> (0 <= ky <= ny)%Z ->
  exists bx by_ dbx dby z dx dy,
    bernstein X kx nx = Ok bx
    /\ bernstein Y ky ny = Ok by_
    /\ Dbernstein X kx nx = Ok dbx
    /\ Dbernstein Y ky ny = Ok dby
    /\ bernstein2d X Y (kx, ky) (nx, ny) = Ok z
    /\ Dbernstein2d X Y (kx, ky) (nx, ny) = Ok (dx, dy)
    /\ forall i,
         item z i = item bx i * item by_ i
         /\ item dx i = item dbx i * item by_ i
         /\ item dy i = item bx i * item dby i
         /\ item z i = Bext kx nx (item X i) * Bext ky ny (item Y i)
         /\ item dx i = DBext kx nx (item X i) * Bext ky ny (item Y i)
         /\ item dy i = Bext kx nx (item X i) * DBext ky ny (item Y i).
Proof.
  intros Hx Hy.
  destruct (bernstein2d_cells X Y (kx, ky) (nx, ny) Hx Hy)
    as (bx & by_ & z & Ebx & Eby & Ez & Hz).
  destruct (Dbernstein2d_cells X Y (kx, ky) (nx, ny) Hx Hy)
    as (bx' & by' & dbx & dby & dx & dy & Ebx' & Eby' & Edbx & Edby & Ed & Hd).
  cbn [fst snd] in *.
  assert (bx' = bx) by congruence. assert (by' = by_) by congruence.
  subst bx' by'.
  destruct (bernstein_cells X kx nx Hx) as (bx' & Ebx'' & Hbx).
  destruct (bernstein_cells Y ky ny Hy) as (by' & Eby'' & Hby).
  assert (bx' = bx) by congruence. assert (by' = by_) by congruence.
  subst bx' by'.
  destruct (Dbernstein_cells X kx nx Hx) as (dbx' & Edbx' & Hdbx).
  destruct (Dbernstein_cells Y ky ny Hy) as (dby' & Edby' & Hdby).
  assert (dbx' = dbx) by congruence. assert (dby' = dby) by congruence.
  subst dbx' dby'.
  exists bx, by_, dbx, dby, z, dx, dy. repeat split; try assumption.
  - apply Hz.
  - apply Hd.
  - apply Hd.
  - rewrite Hz, Hbx, Hby, !Bext_inside by assumption. reflexivity.
  - rewrite (proj1 (Hd i)), Hdbx, Hby, (Bext_inside ky ny) by assumption.
    reflexivity.
  - rewrite (proj2 (Hd i)), Hbx, Hdby, (Bext_inside kx nx) by assumption.
    reflexivity.
Qed.

Lemma tensor_product_spec_witness :
  (0 <= 2 <= 3)%Z /\ (0 <= 3 <= 4)%Z
  /\ exists z dx dy,
       bernstein2d 0.5 0.25 (2, 3)%Z (3, 4)%Z = Ok z
       /\ Dbernstein2d 0.5 0.25 (2, 3)%Z (3, 4)%Z = Ok (dx, dy)
       /\ z = Bext 2 3 0.5 * Bext 3 4 0.25
       /\ dx = DBext 2 3 0.5 * Bext 3 4 0.25
       /\ dy = Bext 2 3 0.5 * DBext 3 4 0.25.
Proof.
  assert (Hx : (0 <= 2 <= 3)%Z) by lia.
  assert (Hy : (0 <= 3 <= 4)%Z) by lia.
  split; [exact Hx|]. split; [exact Hy|].
  destruct (tensor_product_spec 0.5 0.25 2 3 3 4 Hx Hy)
    as (bx & by_ & dbx & dby & z & dx & dy & _ & _ & _ & _ & Ez & Ed & Hc).
  exists z, dx, dy.
  destruct (Hc tt) as (_ & _ & _ & Hz & Hdx & Hdy).
  repeat split; assumption.
Defined.

(** C7.  For every real [x] and non-negative integer [n],
    [signpoly(-x, n) = -signpoly(x, n) * (-1)^n]. *)
Theorem signpoly_symmetry (x : R) (n : Z) :
  (0 <= n)%Z ->
  exists a b, signpoly (- x) n = Ok a
              /\ signpoly x n = Ok b
              /\ a = - b * powerRZ (-1) n.
Proof.
  intros Hn. rewrite !signpoly_scalar by assumption.
  do 2 eexists. split; [reflexivity|]. split; [reflexivity|].
  rewrite powerRZ_to_nat by assumption. apply Hpoly_opp.
Qed.

Lemma signpoly_symmetry_witness :
  (0 <= 3)%Z
  /\ exists a b, signpoly (- (0.5)) 3 = Ok a
                 /\ signpoly 0.5 3 = Ok b
                 /\ a = - b * powerRZ (-1) 3.
Proof.
  assert (Hn : (0 <= 3)%Z) by lia.
  split; [exact Hn | exact (signpoly_symmetry 0.5 3 Hn)].
Defined.

(** C8.  The weighted combination of a Bernstein-family evaluation [B] and
    an integrated-sign evaluation [H] over one grid is, cell by cell,
    [w1 * B + w2 * H], with nothing else applied; the notebook's last cell
    computes it with [w1 = 2] and [w2 = 2 * 2! * 3! = 24]. *)
Theorem weighted_sum_spec {A : Type} `{NDArray A}
    (w1 w2 : R) (B H' : A) (xgrid ygrid : A) :
  (forall i, item (weighted_sum w1 w2 B H') i = w1 * item B i + w2 * item H' i)
  /\ exists zs1 h1 h2 zs,
       bernstein2d xgrid ygrid (2, 3)%Z (3, 4)%Z = Ok zs1
       /\ signpoly (np.subc xgrid 0.4) 2 = Ok h1
       /\ signpoly (np.subc ygrid 0.6) 3 = Ok h2
       /\ weighted_cell xgrid ygrid = Ok zs
       /\ forall i, item zs i
                    = 2 * item zs1 i + 24 * (item h1 i * item h2 i).
Proof.
  split; [intros i; apply weighted_sum_cells|].
  unfold weighted_cell.
  destruct (bernstein2d_cells xgrid ygrid (2, 3)%Z (3, 4)%Z)
    as (_ & _ & zs1 & _ & _ & -> & _); [cbn; lia | cbn; lia |].
  destruct (signpoly_cells (np.subc xgrid 0.4) 2) as (h1 & -> & _); [lia|].
  destruct (signpoly_cells (np.subc ygrid 0.6) 3) as (h2 & -> & _); [lia|].
  rewrite !factorial_nonneg by lia. cbn [bind].
  exists zs1, h1, h2. eexists. repeat split.
  intros i. rewrite weighted_sum_cells. autorewrite with cells.
  change (Z.to_nat 2) with 2%nat. change (Z.to_nat 3) with 3%nat.
  simpl fact. simpl Z.of_nat. lra.
Qed.

(** C9, counterexample: with the shift [c1 = -1] the point [(1, 1)] is
    evaluated at [2 * (1 + 1) - 1 = 3], and for [n1 = 1], [n2 = 0] the
    plotted value is [3] while the colour bound is [1]. *)
Lemma vscale_claim_counterexample : ~ vscale_claim 1 1 1 0 (-1) 0.
Proof.
  intros Hc.
  destruct Hc as (zs & v & E & Hv & Hle); try lra; try lia.
  destruct (plot_signpoly2d_scalar 1 1 1 0 (-1) 0) as (zs' & v' & E' & Hv' & Hz');
    try lia.
  rewrite E in E'. injection E' as <- <-.
  change (Z.to_nat 1) with 1%nat in *. change (Z.to_nat 0) with 0%nat in *.
  unfold Hpoly in Hz'. rewrite !sign_pos in Hz' by lra.
  simpl in Hz', Hv.
  assert (zs = 3) by (rewrite Hz'; field).
  assert (v = 1) by (rewrite Hv; field).
  subst zs v. rewrite Rabs_pos_eq in Hle; lra.
Qed.

(** C9, amended: the bound holds at the points whose shifted arguments
    [2(x-c1)-1] and [2(y-c2)-1] lie in [[-1, 1]], that is for
    [c1 <= x <= c1 + 1] and [c2 <= y <= c2 + 1]; without shift
    ([c1 = c2 = 0]) this is the whole unit square. *)
Theorem vscale_bound (x y : R) (n1 n2 : Z) (c1 c2 : R) :
  c1 <= x <= c1 + 1 -> c2 <= y <= c2 + 1 -> vscale_claim x y n1 n2 c1 c2.
Proof.
  intros Hx Hy _ _ Hn1 Hn2 _ _.
  destruct (plot_signpoly2d_scalar x y n1 n2 c1 c2) as (zs & v & E & Hv & Hz);
    try lia.
  exists zs, v. repeat split; try assumption.
  rewrite Hz, Hv, Rabs_mult.
  assert (B1 : Rabs (Hpoly (Z.to_nat n1) (2 * (x - c1) - 1))
               <= 1 / INR (fact (Z.to_nat n1))).
  { apply Hpoly_bound. apply Rabs_le. lra. }
  assert (B2 : Rabs (Hpoly (Z.to_nat n2) (2 * (y - c2) - 1))
               <= 1 / INR (fact (Z.to_nat n2))).
  { apply Hpoly_bound. apply Rabs_le. lra. }
  replace (1 / (INR (fact (Z.to_nat n1)) * INR (fact (Z.to_nat n2))))
    with (1 / INR (fact (Z.to_nat n1)) * (1 / INR (fact (Z.to_nat n2)))).
  - apply Rmult_le_compat; try apply Rabs_pos; assumption.
  - field. split; apply INR_fact_neq_0.
Qed.

Lemma vscale_bound_witness :
  0 <= 0.25 <= 0 + 1 /\ 0 <= 0.75 <= 0 + 1
  /\ exists zs v,
       plot_signpoly2d 0.25 0.75 2 3 0 0 = Ok (zs, v)
       /\ v = 1 / (INR (fact (Z.to_nat 2)) * INR (fact (Z.to_nat 3)))
       /\ Rabs zs <= v.
Proof.
  assert (Hx : 0 <= 0.25 <= 0 + 1) by lra.
  assert (Hy : 0 <= 0.75 <= 0 + 1) by lra.
  split; [exact Hx|]. split; [exact Hy|].
  apply (vscale_bound 0.25 0.75 2 3 0 0 Hx Hy); (lra || lia).
Defined.

(** C10.  For [x] in [[0,1]] and integers [0 <= k <= n], the value of
    [bernstein(x, k, n)] lies in [[0, 1]]; at the end points the value
    follows the convention [0^0 = 1]: [bernstein(0, 0, n) = 1] and
    [bernstein(1, n, n) = 1]. *)
Theorem bernstein_unit_interval (x : R) (k n : Z) :
  0 <= x <= 1 -> (0 <= k <= n)%Z ->
  (exists y, bernstein x k n = Ok y /\ 0 <= y <= 1)
  /\ bernstein 0 0 n = Ok 1
  /\ bernstein 1 n n = Ok 1.
Proof.
  intros Hx Hk. repeat split.
  - rewrite bernstein_scalar by assumption. eexists; split; [reflexivity|].
    split; [apply Bpoly_nonneg | apply Bpoly_le_1]; (lia || assumption).
  - rewrite bernstein_scalar by lia. f_equal. unfold Bpoly.
    change (Z.to_nat 0) with 0%nat. rewrite C_zero, Nat.sub_0_r.
    replace (1 - 0) with 1 by ring. rewrite pow1. simpl. ring.
  - rewrite bernstein_scalar by lia. f_equal. unfold Bpoly.
    rewrite C_diag, Nat.sub_diag, pow1. simpl. ring.
Qed.

Lemma bernstein_unit_interval_witness :
  0 <= 0.5 <= 1 /\ (0 <= 2 <= 3)%Z
  /\ (exists y, bernstein 0.5 2 3 = Ok y /\ 0 <= y <= 1)
  /\ bernstein 0 0 3 = Ok 1
  /\ bernstein 1 3 3 = Ok 1.
Proof.
  assert (Hx : 0 <= 0.5 <= 1) by lra.
  assert (Hk : (0 <= 2 <= 3)%Z) by lia.
  split; [exact Hx|]. split; [exact Hk|].
  exact (bernstein_unit_interval 0.5 2 3 Hx Hk).
Defined.

(** * Further properties of the notebook's code *)

(** ** Bernstein polynomials: symmetry, end points, stationary point *)

Lemma choose_pos (n k : nat) : (k <= n)%nat -> (0 < choose n k)%nat.
Proof.
  intros Hk. assert (E := choose_fact n k Hk).
  pose proof (lt_O_fact n). destruct (choose n k); [simpl in E; lia | lia].
Qed.

Lemma C_pos (n k : nat) : (k <= n)%nat -> 0 < C n k.
Proof.
  intros Hk. rewrite <- INR_choose by assumption.
  apply lt_0_INR. now apply choose_pos.
Qed.

Lemma Bpoly_reflect (k n : nat) (x : R) :
  (k <= n)%nat -> Bpoly k n (1 - x) = Bpoly (n - k) n x.
Proof.
  intros Hk. unfold Bpoly. rewrite (pascal_step1 n k Hk).
  replace (1 - (1 - x)) with x by ring.
  replace (n - (n - k))%nat with k by lia. ring.
Qed.

Lemma Bpoly_at_0 (k n : nat) :
  (k <= n)%nat -> Bpoly k n 0 = if (k =? 0)%nat then 1 else 0.
Proof.
  intros Hk. unfold Bpoly. destruct k as [|k].
  - rewrite C_zero. replace (1 - 0) with 1 by ring. rewrite pow1.
    simpl. ring.
  - rewrite pow_ne_zero by lia. simpl. ring.
Qed.

Lemma Bpoly_at_1 (k n : nat) :
  (k <= n)%nat -> Bpoly k n 1 = if (k =? n)%nat then 1 else 0.
Proof.
  intros Hk. unfold Bpoly. replace (1 - 1) with 0 by ring.
  destruct (Nat.eqb_spec k n) as [->|Hne].
  - rewrite C_diag, Nat.sub_diag, pow1. simpl. ring.
  - rewrite (pow_ne_zero (n - k)) by lia. ring.
Qed.

Lemma Bpoly_pos (k n : nat) (x : R) :
  (k <= n)%nat -> 0 < x < 1 -> 0 < Bpoly k n x.
Proof.
  intros Hk Hx. unfold Bpoly.
  apply Rmult_lt_0_compat; [apply Rmult_lt_0_compat|].
  - now apply C_pos.
  - apply pow_lt; lra.
  - apply pow_lt; lra.
Qed.

Lemma pow_pred_step (k : nat) (x : R) : INR k * x ^ pred k * x = INR k * x ^ k.
Proof. destruct k as [|k]; simpl; ring. Qed.

Lemma Bpoly_deriv_identity (k n : nat) (x : R) :
  (k <= n)%nat ->
  x * (1 - x)
  * (INR n * ((if (k =? 0)%nat then 0 else Bpoly (k - 1) (n - 1) x)
              - (if (k =? n)%nat then 0 else Bpoly k (n - 1) x)))
  = (INR k - INR n * x) * Bpoly k n x.
Proof.
  intros Hk.
  rewrite <- (uniqueness_limite (Bpoly k n) x _ _
                (deriv_monomial (C n k) k (n - k) x) (Bpoly_deriv k n x Hk)).
  unfold Bpoly.
  assert (E1 := pow_pred_step k x).
  assert (E2 := pow_pred_step (n - k) (1 - x)).
  replace (INR n) with (INR k + INR (n - k)).
  - transitivity
      (C n k * ((INR k * x ^ pred k * x) * ((1 - x) * (1 - x) ^ (n - k))
                - (x * x ^ k)
                  * (INR (n - k) * (1 - x) ^ pred (n - k) * (1 - x))));
      [ring|].
    rewrite E1, E2. ring.
  - rewrite <- plus_INR. f_equal. lia.
Qed.

Lemma Dbernstein_scalar (x : R) (k n : Z) :
  (0 <= k <= n)%Z -> Dbernstein x k n = Ok (DBext k n x).
Proof.
  intros Hk. destruct (Dbernstein_cells x k n Hk) as (y & -> & Hy).
  f_equal. exact (Hy tt).
Qed.

Lemma DBext_nat (k n : Z) (x : R) :
  (0 <= k <= n)%Z ->
  DBext k n x
  = INR (Z.to_nat n)
    * ((if (Z.to_nat k =? 0)%nat then 0
        else Bpoly (Z.to_nat k - 1) (Z.to_nat n - 1) x)
       - (if (Z.to_nat k =? Z.to_nat n)%nat then 0
          else Bpoly (Z.to_nat k) (Z.to_nat n - 1) x)).
Proof.
  intros Hk. unfold DBext. rewrite INR_IZR_INZ, Z2Nat.id by lia.
  f_equal. f_equal.
  - destruct (Nat.eqb_spec (Z.to_nat k) 0) as [E|E].
    + apply Bext_outside. lia.
    + rewrite Bext_inside by lia.
      now rewrite Z2Nat.inj_sub, (Z2Nat.inj_sub n) by lia.
  - destruct (Nat.eqb_spec (Z.to_nat k) (Z.to_nat n)) as [E|E].
    + apply Bext_outside. lia.
    + rewrite Bext_inside by lia.
      now rewrite (Z2Nat.inj_sub n) by lia.
Qed.

(** X1.  Reflecting the argument swaps the index: for [0 <= k <= n],
    [bernstein(1 - x, k, n)] and [bernstein(x, n - k, n)] both return, and
    return the same cells. *)
Theorem bernstein_reflection {A : Type} `{NDArray A} (x : A) (k n : Z) :
  (0 <= k <= n)%Z ->
  exists y y', bernstein (np.rsub 1 x) k n = Ok y
               /\ bernstein x (n - k) n = Ok y'
               /\ forall i, item y i = item y' i.
Proof.
  intros Hk.
  destruct (bernstein_cells (np.rsub 1 x) k n Hk) as (y & Ey & Hy).
  destruct (bernstein_cells x (n - k) n ltac:(lia)) as (y' & Ey' & Hy').
  exists y, y'. repeat split; try assumption.
  intros i. rewrite Hy, Hy'. autorewrite with cells.
  rewrite Bpoly_reflect by lia. now rewrite Z2Nat.inj_sub by lia.
Qed.

Lemma bernstein_reflection_witness :
  (0 <= 1 <= 3)%Z
  /\ exists y y', bernstein (np.rsub 1 0.25) 1 3 = Ok y
                  /\ bernstein 0.25 (3 - 1) 3 = Ok y'
                  /\ forall i, item y i = item y' i.
Proof.
  assert (Hk : (0 <= 1 <= 3)%Z) by lia.
  split; [exact Hk | exact (bernstein_reflection 0.25 1 3 Hk)].
Defined.

(** X2.  For [0 <= k <= n]: at [x = 0] the value of [bernstein] is [1]
    for [k = 0] and [0] otherwise, at [x = 1] it is [1] for [k = n] and
    [0] otherwise, and strictly between the end points it is positive. *)
Theorem bernstein_end_points (x : R) (k n : Z) :
  (0 <= k <= n)%Z ->
  bernstein 0 k n = Ok (if (k =? 0)%Z then 1 else 0)
  /\ bernstein 1 k n = Ok (if (k =? n)%Z then 1 else 0)
  /\ (0 < x < 1 -> exists y, bernstein x k n = Ok y /\ 0 < y).
Proof.
  intros Hk. rewrite !bernstein_scalar by assumption. repeat split.
  - f_equal. rewrite Bpoly_at_0 by lia.
    destruct (Z.eqb_spec k 0), (Nat.eqb_spec (Z.to_nat k) 0);
      (reflexivity || lia).
  - f_equal. rewrite Bpoly_at_1 by lia.
    destruct (Z.eqb_spec k n), (Nat.eqb_spec (Z.to_nat k) (Z.to_nat n));
      (reflexivity || lia).
  - intros Hx. eexists; split; [reflexivity|]. apply Bpoly_pos; [lia|assumption].
Qed.

Lemma bernstein_end_points_witness :
  (0 <= 2 <= 3)%Z /\ 0 < 0.5 < 1
  /\ bernstein 0 2 3 = Ok 0
  /\ bernstein 1 2 3 = Ok 0
  /\ exists y, bernstein 0.5 2 3 = Ok y /\ 0 < y.
Proof.
  assert (Hk : (0 <= 2 <= 3)%Z) by lia.
  assert (Hx : 0 < 0.5 < 1) by lra.
  split; [exact Hk|]. split; [exact Hx|].
  destruct (bernstein_end_points 0.5 2 3 Hk) as (H0 & H1 & Hin).
  split; [exact H0|]. split; [exact H1 | exact (Hin Hx)].
Defined.

(** X3.  For [0 <= k <= n] the values [d] of [Dbernstein(x, k, n)] and [b]
    of [bernstein(x, k, n)] satisfy [x (1 - x) d = (k - n x) b]; hence for
    [0 < k < n] the derivative returned at [x = k / n] is [0]. *)
Theorem Dbernstein_stationary (x : R) (k n : Z) :
  (0 <= k <= n)%Z ->
  (exists d b, Dbernstein x k n = Ok d
               /\ bernstein x k n = Ok b
               /\ x * (1 - x) * d = (IZR k - IZR n * x) * b)
  /\ ((0 < k < n)%Z -> Dbernstein (IZR k / IZR n) k n = Ok 0).
Proof.
  intros Hk.
  assert (Id : forall t, t * (1 - t) * DBext k n t
                         = (IZR k - IZR n * t)
                           * Bpoly (Z.to_nat k) (Z.to_nat n) t).
  { intros t. rewrite DBext_nat by assumption.
    rewrite Bpoly_deriv_identity by lia.
    now rewrite !INR_IZR_INZ, !Z2Nat.id by lia. }
  split.
  - rewrite Dbernstein_scalar, bernstein_scalar by assumption.
    do 2 eexists. split; [reflexivity|]. split; [reflexivity|]. apply Id.
  - intros Hkn. rewrite Dbernstein_scalar by assumption. f_equal.
    assert (Hn : 0 < IZR n) by (apply IZR_lt; lia).
    assert (Hk0 : 0 < IZR k) by (apply IZR_lt; lia).
    assert (Hlt : IZR k < IZR n) by (apply IZR_lt; lia).
    set (t := IZR k / IZR n).
    assert (Ht : 0 < t < 1).
    { unfold t. split.
      - now apply Rdiv_lt_0_compat.
      - apply (Rmult_lt_reg_r (IZR n)); [assumption|].
        unfold Rdiv. rewrite Rmult_assoc, Rinv_l by lra. lra. }
    assert (E := Id t).
    replace (IZR k - IZR n * t) with 0 in E by (unfold t; field; lra).
    rewrite Rmult_0_l in E.
    apply Rmult_integral in E. destruct E as [E|E]; [|exact E].
    apply Rmult_integral in E. lra.
Qed.

Lemma Dbernstein_stationary_witness :
  (0 <= 1 <= 2)%Z /\ (0 < 1 < 2)%Z /\ Dbernstein (1 / 2) 1 2 = Ok 0.
Proof.
  assert (Hk : (0 <= 1 <= 2)%Z) by lia.
  assert (Hkn : (0 < 1 < 2)%Z) by lia.
  split; [exact Hk|]. split; [exact Hkn|].
  exact (proj2 (Dbernstein_stationary 0 1 2 Hk) Hkn).
Defined.

Lemma telescope (c : R) (g : nat -> R) (N : nat) :
  sum_f_R0 (fun i => c * (g i - g (S i))) N = c * (g 0%nat - g (S N)).
Proof.
  induction N as [|N IH]; simpl.
  - reflexivity.
  - rewrite IH. ring.
Qed.

(** X4.  The derivatives of the [n + 1] basis polynomials of one degree
    cancel: [sum(Dbernstein(x, k, n) for k in range(n+1))] is [0], for
    every real [x] and integer [n >= 0]. *)
Theorem Dbernstein_sum_zero (x : R) (n : Z) :
  (0 <= n)%Z -> py_sum (fun k => Dbernstein x k n) (range (n + 1)) = Ok 0.
Proof.
  intros Hn. unfold py_sum, range.
  rewrite (fold_sum_ok _ (fun k => DBext k n x)).
  - f_equal. replace (Z.to_nat (n + 1)) with (S (Z.to_nat n)) by lia.
    rewrite fold_range_sum. unfold DBext.
    rewrite (sum_eq _ (fun i => IZR n * (Bext (Z.of_nat i - 1) (n - 1) x
                                         - Bext (Z.of_nat (S i) - 1) (n - 1) x))).
    + rewrite (telescope (IZR n) (fun i => Bext (Z.of_nat i - 1) (n - 1) x)).
      rewrite !Bext_outside by lia. ring.
    + intros i _. do 3 f_equal. lia.
  - intros k Hk. apply in_map_iff in Hk. destruct Hk as (i & <- & Hi).
    apply in_seq in Hi. apply Dbernstein_scalar. lia.
Qed.

Lemma Dbernstein_sum_zero_witness :
  (0 <= 3)%Z /\ py_sum (fun k => Dbernstein 0.25 k 3) (range (3 + 1)) = Ok 0.
Proof.
  assert (Hn : (0 <= 3)%Z) by lia.
  split; [exact Hn | exact (Dbernstein_sum_zero 0.25 3 Hn)].
Defined.

(** ** Integrated sign functions: magnitude, antiderivatives *)

Lemma Rabs_sign_nonzero (t : R) : t <> 0 -> Rabs (sign t) = 1.
Proof.
  intros Ht. destruct (sign_cases t) as [[_ ->]|[[E _]|[_ ->]]];
    [| contradiction |]; unfold Rabs; destruct (Rcase_abs _); lra.
Qed.

Lemma Hpoly_abs (n : nat) (x : R) :
  x <> 0 \/ (1 <= n)%nat -> Rabs (Hpoly n x) = Rabs x ^ n / INR (fact n).
Proof.
  intros Hx. unfold Hpoly.
  assert (Hf := INR_fact_lt_0 n).
  rewrite !Rabs_mult, <- RPow_abs.
  rewrite (Rabs_pos_eq (1 / INR (fact n)))
    by (apply Rlt_le, Rdiv_lt_0_compat; lra).
  destruct (Req_dec x 0) as [->|Hne].
  - destruct Hx as [Hx|Hn]; [contradiction|].
    rewrite Rabs_R0, pow_ne_zero by lia. unfold Rdiv. ring.
  - rewrite Rabs_sign_nonzero by assumption. unfold Rdiv. ring.
Qed.

(** X6.  The magnitude of the value of [signpoly(x, n)] is [|x|^n / n!],
    for every [n >= 0] and every [x], the single point [x = 0] of the raw
    signum ([n = 0]) excepted. *)
Theorem signpoly_magnitude (x : R) (n : Z) :
  (0 <= n)%Z -> x <> 0 \/ (1 <= n)%Z ->
  exists h, signpoly x n = Ok h
            /\ Rabs h = Rabs x ^ Z.to_nat n / INR (fact (Z.to_nat n)).
Proof.
  intros Hn Hx. rewrite signpoly_scalar by assumption.
  eexists; split; [reflexivity|]. apply Hpoly_abs.
  destruct Hx as [Hx|Hx]; [now left | right; lia].
Qed.

Lemma signpoly_magnitude_witness :
  (0 <= 3)%Z /\ (- (2) <> 0 \/ (1 <= 3)%Z)
  /\ exists h, signpoly (- (2)) 3 = Ok h
               /\ Rabs h = Rabs (- (2)) ^ Z.to_nat 3 / INR (fact (Z.to_nat 3)).
Proof.
  assert (Hn : (0 <= 3)%Z) by lia.
  assert (Hx : - (2) <> 0 \/ (1 <= 3)%Z) by (right; lia).
  split; [exact Hn|]. split; [exact Hx|].
  exact (signpoly_magnitude (- (2)) 3 Hn Hx).
Defined.

Lemma derivable_pt_lim_locally (f g : R -> R) (x l : R) (r : R) :
  0 < r -> (forall t, Rabs (t - x) < r -> f t = g t) ->
  derivable_pt_lim f x l -> derivable_pt_lim g x l.
Proof.
  intros Hr Hfg Hf eps Heps. destruct (Hf eps Heps) as [delta Hd].
  assert (Hm : 0 < Rmin delta r) by (apply Rmin_pos; [apply cond_pos|assumption]).
  exists (mkposreal _ Hm). intros h Hh0 Hh. cbn in Hh.
  rewrite <- (Hfg (x + h)), <- (Hfg x).
  - apply Hd; [assumption|]. eapply Rlt_le_trans; [exact Hh|apply Rmin_l].
  - replace (x - x) with 0 by ring. now rewrite Rabs_R0.
  - replace (x + h - x) with h by ring.
    eapply Rlt_le_trans; [exact Hh|apply Rmin_r].
Qed.

Lemma deriv_scaled_pow (c : R) (m : nat) (x : R) :
  derivable_pt_lim (fun t => c * t ^ S m) x (c * (INR (S m) * x ^ m)).
Proof.
  apply (derivable_pt_lim_scal (fun t => t ^ S m) c x).
  exact (derivable_pt_lim_pow x (S m)).
Qed.

Lemma inv_fact_step (m : nat) :
  1 / INR (fact (S m)) * INR (S m) = 1 / INR (fact m).
Proof.
  rewrite fact_simpl, mult_INR. field.
  split; [apply INR_fact_neq_0 | apply not_0_INR; lia].
Qed.

Lemma Hpoly_deriv_away (m : nat) (x : R) :
  x <> 0 -> derivable_pt_lim (Hpoly (S m)) x (Hpoly m x).
Proof.
  intros Hx. destruct (Rtotal_order x 0) as [Hneg|[E|Hpos]]; [|contradiction|].
  - apply (derivable_pt_lim_locally
             (fun t => (- (1 / INR (fact (S m)))) * t ^ S m) _ x _ (- x));
      [lra| |].
    + intros t Ht. unfold Hpoly. rewrite sign_neg; [ring|].
      apply Rabs_def2 in Ht. lra.
    + replace (Hpoly m x)
        with (- (1 / INR (fact (S m))) * (INR (S m) * x ^ m)).
      * apply deriv_scaled_pow.
      * unfold Hpoly. rewrite sign_neg by assumption.
        rewrite <- (inv_fact_step m). ring.
  - apply (derivable_pt_lim_locally
             (fun t => 1 / INR (fact (S m)) * t ^ S m) _ x _ x);
      [lra| |].
    + intros t Ht. unfold Hpoly. rewrite sign_pos; [ring|].
      apply Rabs_def2 in Ht. lra.
    + replace (Hpoly m x) with (1 / INR (fact (S m)) * (INR (S m) * x ^ m)).
      * apply deriv_scaled_pow.
      * unfold Hpoly. rewrite sign_pos by assumption.
        rewrite <- (inv_fact_step m). ring.
Qed.

Lemma Hpoly_deriv_origin (m : nat) :
  (1 <= m)%nat -> derivable_pt_lim (Hpoly (S m)) 0 (Hpoly m 0).
Proof.
  intros Hm eps Heps.
  assert (Hd : 0 < Rmin eps 1) by (apply Rmin_pos; lra).
  exists (mkposreal _ Hd). intros h Hh0 Hh. cbn in Hh.
  assert (Hh1 : Rabs h < 1) by (eapply Rlt_le_trans; [exact Hh|apply Rmin_r]).
  assert (Hhe : Rabs h < eps) by (eapply Rlt_le_trans; [exact Hh|apply Rmin_l]).
  replace ((Hpoly (S m) (0 + h) - Hpoly (S m) 0) / h - Hpoly m 0)
    with (1 / INR (fact (S m)) * h ^ m * sign h).
  - assert (Hf := INR_fact_lt_0 (S m)).
    assert (Hf1 : 1 <= INR (fact (S m))).
    { change 1 with (INR 1). apply le_INR. pose proof (lt_O_fact (S m)). lia. }
    assert (Hc : 0 < 1 / INR (fact (S m)) <= 1).
    { split; [apply Rdiv_lt_0_compat; lra|].
      apply (Rmult_le_reg_r (INR (fact (S m)))); [assumption|].
      unfold Rdiv. rewrite Rmult_assoc, Rinv_l by lra. lra. }
    rewrite !Rabs_mult, <- RPow_abs, (Rabs_pos_eq (1 / _)) by lra.
    assert (Hs := Rabs_sign_le h). assert (Hs0 := Rabs_pos (sign h)).
    assert (Ha := Rabs_pos h).
    assert (Hp : 0 <= Rabs h ^ m <= Rabs h).
    { split; [now apply pow_le|].
      destruct m as [|m]; [lia|]. simpl.
      assert (0 <= Rabs h ^ m <= 1).
      { split; [now apply pow_le|].
        rewrite <- (pow1 m). apply pow_incr. lra. }
      nra. }
    apply Rle_lt_trans with (Rabs h); [|assumption].
    assert (1 / INR (fact (S m)) * Rabs h ^ m <= Rabs h) by nra.
    assert (0 <= 1 / INR (fact (S m)) * Rabs h ^ m) by nra.
    nra.
  - unfold Hpoly. rewrite sign_zero.
    replace (0 + h) with h by ring.
    rewrite (pow_ne_zero m) by lia. simpl. field.
    split; [apply INR_fact_neq_0|]. split; [|assumption].
    exact (INR_fact_neq_0 (S m)).
Qed.

Lemma signpoly_value (t : R) (n : Z) :
  (0 <= n)%Z -> value_or 0 (signpoly t n) = Hpoly (Z.to_nat n) t.
Proof. intros Hn. now rewrite signpoly_scalar. Qed.

(** X7.  Each member of the family is an antiderivative of the one before:
    for [n >= 0] the derivative of [signpoly(., n + 1)] at [x] is the value
    of [signpoly(x, n)], at every [x <> 0], and also at [x = 0] once
    [n >= 1]. *)
Theorem signpoly_antiderivative (x : R) (n : Z) :
  (0 <= n)%Z -> x <> 0 \/ (1 <= n)%Z ->
  exists h, signpoly x n = Ok h
            /\ derivable_pt_lim (fun t => value_or 0 (signpoly t (n + 1))) x h.
Proof.
  intros Hn Hx. rewrite signpoly_scalar by assumption.
  eexists; split; [reflexivity|].
  apply (derivable_pt_lim_pointwise (Hpoly (S (Z.to_nat n)))).
  { intros t. rewrite signpoly_value by lia. f_equal. lia. }
  destruct (Req_dec x 0) as [->|Hne].
  - destruct Hx as [Hx|Hx]; [contradiction|].
    apply Hpoly_deriv_origin. lia.
  - now apply Hpoly_deriv_away.
Qed.

Lemma signpoly_antiderivative_witness :
  (0 <= 1)%Z /\ (0 <> 0 \/ (1 <= 1)%Z)
  /\ exists h, signpoly 0 1 = Ok h
               /\ derivable_pt_lim (fun t => value_or 0 (signpoly t (1 + 1))) 0 h.
Proof.
  assert (Hn : (0 <= 1)%Z) by lia.
  assert (Hx : 0 <> 0 \/ (1 <= 1)%Z) by (right; lia).
  split; [exact Hn|]. split; [exact Hx|].
  exact (signpoly_antiderivative 0 1 Hn Hx).
Defined.

(** ** The plotting cells *)

Lemma In_range (k m : Z) : In k (range m) <-> (0 <= k < m)%Z.
Proof.
  unfold range. rewrite in_map_iff. split.
  - intros (i & <- & Hi). apply in_seq in Hi. lia.
  - intros Hk. exists (Z.to_nat k). split; [lia|]. apply in_seq. lia.
Qed.

Section Curves.
Context {A : Type} `{NDArray A}.

Lemma signpoly_curve_cells (xs : A) (n : Z) :
  (0 <= n)%Z -> (forall i, 0 <= item xs i <= 1) ->
  exists h lo hi, signpoly_curve xs n = Ok (h, (lo, hi))
                  /\ forall i, lo < item h i < hi.
Proof.
  intros Hn Hxs. unfold signpoly_curve.
  destruct (signpoly_cells (np.subc (np.scale 2 xs) 1) n Hn) as (h & -> & Hh).
  rewrite factorial_nonneg by assumption. cbn [bind].
  do 3 eexists. split; [reflexivity|]. intros i.
  rewrite Hh. autorewrite with cells. rewrite <- INR_IZR_INZ.
  assert (Hf := INR_fact_lt_0 (Z.to_nat n)).
  assert (Hb := Hpoly_bound (Z.to_nat n) (2 * item xs i - 1)
                  ltac:(apply Rabs_le; specialize (Hxs i); lra)).
  assert (Hb' := Rle_abs (Hpoly (Z.to_nat n) (2 * item xs i - 1))).
  assert (Hb'' := Rle_abs (- Hpoly (Z.to_nat n) (2 * item xs i - 1))).
  rewrite Rabs_Ropp in Hb''.
  assert (Hinv : 0 < / INR (fact (Z.to_nat n))) by now apply Rinv_0_lt_compat.
  unfold Rdiv in *. lra.
Qed.

(** X8.  In the cell of the shifted integrated sign functions, none of
    the five rounds raises, and every curve [signpoly(2*xs-1, n)] over
    sample points in [[0, 1]] lies strictly inside the limits
    [-1.1/n!, 1.1/n!] given to [plt.ylim]. *)
Theorem signpoly_curves_within_ylim (xs : A) :
  (forall i, 0 <= item xs i <= 1) ->
  length (signpoly_curves xs) = 5%nat
  /\ forall r, In r (signpoly_curves xs) ->
       exists h lo hi, r = Ok (h, (lo, hi)) /\ forall i, lo < item h i < hi.
Proof.
  intros Hxs. split; [reflexivity|].
  intros r Hr. unfold signpoly_curves in Hr.
  apply in_map_iff in Hr. destruct Hr as (n & <- & Hn).
  apply In_range in Hn. apply signpoly_curve_cells; [lia|assumption].
Qed.

(** X9.  Every call made by the two plotting loops
    [for n in range(5): for k in range(n+1)] satisfies the assertion:
    each loop produces fifteen curves and none of the calls of [bernstein]
    and [Dbernstein] raises, whatever the sample points. *)
Theorem plotting_loops_never_raise (xs : A) :
  length (bernstein_curves xs) = 15%nat
  /\ length (Dbernstein_curves xs) = 15%nat
  /\ (forall r, In r (bernstein_curves xs) -> exists y, r = Ok y)
  /\ (forall r, In r (Dbernstein_curves xs) -> exists y, r = Ok y).
Proof.
  split; [reflexivity|]. split; [reflexivity|]. split.
  - intros r Hr. unfold bernstein_curves in Hr.
    apply in_flat_map in Hr. destruct Hr as (n & Hn & Hr).
    apply in_map_iff in Hr. destruct Hr as (k & <- & Hk).
    apply In_range in Hn, Hk.
    destruct (bernstein_cells xs k n ltac:(lia)) as (y & -> & _). eauto.
  - intros r Hr. unfold Dbernstein_curves in Hr.
    apply in_flat_map in Hr. destruct Hr as (n & Hn & Hr).
    apply in_map_iff in Hr. destruct Hr as (k & <- & Hk).
    apply In_range in Hn, Hk.
    destruct (Dbernstein_cells xs k n ltac:(lia)) as (y & -> & _). eauto.
Qed.


(** X11.  On sample points of the unit square and valid index pairs,
    every cell of the value of [bernstein2d] lies in [[0, 1]]. *)
Theorem bernstein2d_unit_square (X Y : A) (kx ky nx ny : Z) :
  (0 <= kx <= nx)%Z -> (0 <= ky <= ny)%Z ->
  (forall i, 0 <= item X i <= 1 /\ 0 <= item Y i <= 1) ->
  exists z, bernstein2d X Y (kx, ky) (nx, ny) = Ok z
            /\ forall i, 0 <= item z i <= 1.
Proof.
  intros Hx Hy Hxy.
  destruct (bernstein2d_cells X Y (kx, ky) (nx, ny) Hx Hy)
    as (bx & by_ & z & Ex & Ey & Ez & Hz).
  cbn [fst snd] in *.
  destruct (bernstein_cells X kx nx Hx) as (bx' & Ex' & Hbx).
  destruct (bernstein_cells Y ky ny Hy) as (by' & Ey' & Hby).
  assert (bx' = bx) by congruence. assert (by' = by_) by congruence.
  subst bx' by'.
  exists z. split; [assumption|]. intros i. rewrite Hz, Hbx, Hby.
  destruct (Hxy i) as [Hxi Hyi].
  assert (0 <= Bpoly (Z.to_nat kx) (Z.to_nat nx) (item X i) <= 1).
  { split; [apply Bpoly_nonneg | apply Bpoly_le_1]; (lia || assumption). }
  assert (0 <= Bpoly (Z.to_nat ky) (Z.to_nat ny) (item Y i) <= 1).
  { split; [apply Bpoly_nonneg | apply Bpoly_le_1]; (lia || assumption). }
  nra.
Qed.

End Curves.

Lemma signpoly_curves_within_ylim_witness :
  (forall i : unit, 0 <= item 0.25 i <= 1)
  /\ length (signpoly_curves 0.25) = 5%nat
  /\ forall r, In r (signpoly_curves 0.25) ->
       exists h lo hi, r = Ok (h, (lo, hi)) /\ forall i, lo < item h i < hi.
Proof.
  assert (Hxs : forall i : unit, 0 <= item 0.25 i <= 1) by (intros i; cbn; lra).
  split; [exact Hxs | exact (signpoly_curves_within_ylim 0.25 Hxs)].
Defined.

Lemma bernstein2d_unit_square_witness :
  (0 <= 2 <= 3)%Z /\ (0 <= 3 <= 4)%Z
  /\ (forall i : unit, 0 <= item 0.5 i <= 1 /\ 0 <= item 0.25 i <= 1)
  /\ exists z, bernstein2d 0.5 0.25 (2, 3)%Z (3, 4)%Z = Ok z
               /\ forall i, 0 <= item z i <= 1.
Proof.
  assert (Hx : (0 <= 2 <= 3)%Z) by lia.
  assert (Hy : (0 <= 3 <= 4)%Z) by lia.
  assert (Hxy : forall i : unit, 0 <= item 0.5 i <= 1 /\ 0 <= item 0.25 i <= 1)
    by (intros i; cbn; lra).
  split; [exact Hx|]. split; [exact Hy|]. split; [exact Hxy|].
  exact (bernstein2d_unit_square 0.5 0.25 2 3 3 4 Hx Hy Hxy).
Defined.


(** ** Tensor products: gradient and partition of unity *)

Lemma bernstein2d_scalar (x y : R) (kx ky nx ny : Z) :
  (0 <= kx <= nx)%Z -> (0 <= ky <= ny)%Z ->
  bernstein2d x y (kx, ky) (nx, ny)
  = Ok (Bpoly (Z.to_nat kx) (Z.to_nat nx) x * Bpoly (Z.to_nat ky) (Z.to_nat ny) y).
Proof.
  intros Hx Hy.
  destruct (bernstein2d_cells x y (kx, ky) (nx, ny) Hx Hy)
    as (bx & by_ & z & Ex & Ey & -> & Hz).
  cbn [fst snd] in *. rewrite bernstein_scalar in Ex, Ey by assumption.
  injection Ex as <-. injection Ey as <-. f_equal. exact (Hz tt).
Qed.

Lemma Dbernstein2d_scalar (x y : R) (kx ky nx ny : Z) :
  (0 <= kx <= nx)%Z -> (0 <= ky <= ny)%Z ->
  Dbernstein2d x y (kx, ky) (nx, ny)
  = Ok (DBext kx nx x * Bpoly (Z.to_nat ky) (Z.to_nat ny) y,
        Bpoly (Z.to_nat kx) (Z.to_nat nx) x * DBext ky ny y).
Proof.
  intros Hx Hy.
  destruct (Dbernstein2d_cells x y (kx, ky) (nx, ny) Hx Hy)
    as (bx & by_ & dbx & dby & dx & dy & Ex & Ey & Edx & Edy & -> & Hd).
  cbn [fst snd] in *. rewrite bernstein_scalar in Ex, Ey by assumption.
  rewrite Dbernstein_scalar in Edx, Edy by assumption.
  injection Ex as <-. injection Ey as <-.
  injection Edx as <-. injection Edy as <-.
  destruct (Hd tt) as [Hdx Hdy]. cbn in Hdx, Hdy. now rewrite Hdx, Hdy.
Qed.

Lemma Bpoly_derivative (k n : Z) (x : R) :
  (0 <= k <= n)%Z ->
  derivable_pt_lim (Bpoly (Z.to_nat k) (Z.to_nat n)) x (DBext k n x).
Proof.
  intros Hk. rewrite DBext_nat by assumption. apply Bpoly_deriv. lia.
Qed.

(** X12.  [Dbernstein2d] returns the gradient of [bernstein2d]: for valid
    index pairs its first component is the partial derivative of the value
    of [bernstein2d] in [x], its second the partial derivative in [y]. *)
Theorem Dbernstein2d_gradient (x y : R) (kx ky nx ny : Z) :
  (0 <= kx <= nx)%Z -> (0 <= ky <= ny)%Z ->
  exists dx dy,
    Dbernstein2d x y (kx, ky) (nx, ny) = Ok (dx, dy)
    /\ derivable_pt_lim
         (fun t => value_or 0 (bernstein2d t y (kx, ky) (nx, ny))) x dx
    /\ derivable_pt_lim
         (fun t => value_or 0 (bernstein2d x t (kx, ky) (nx, ny))) y dy.
Proof.
  intros Hx Hy. rewrite Dbernstein2d_scalar by assumption.
  do 2 eexists. split; [reflexivity|]. split.
  - apply (derivable_pt_lim_pointwise
             (fun t => Bpoly (Z.to_nat ky) (Z.to_nat ny) y
                       * Bpoly (Z.to_nat kx) (Z.to_nat nx) t)).
    { intros t. rewrite bernstein2d_scalar by assumption. cbn. ring. }
    rewrite Rmult_comm.
    apply (derivable_pt_lim_scal (Bpoly (Z.to_nat kx) (Z.to_nat nx))).
    now apply Bpoly_derivative.
  - apply (derivable_pt_lim_pointwise
             (fun t => Bpoly (Z.to_nat kx) (Z.to_nat nx) x
                       * Bpoly (Z.to_nat ky) (Z.to_nat ny) t)).
    { intros t. rewrite bernstein2d_scalar by assumption. reflexivity. }
    apply (derivable_pt_lim_scal (Bpoly (Z.to_nat ky) (Z.to_nat ny))).
    now apply Bpoly_derivative.
Qed.

Lemma Dbernstein2d_gradient_witness :
  (0 <= 2 <= 3)%Z /\ (0 <= 3 <= 4)%Z
  /\ exists dx dy,
       Dbernstein2d 0.5 0.25 (2, 3)%Z (3, 4)%Z = Ok (dx, dy)
       /\ derivable_pt_lim
            (fun t => value_or 0 (bernstein2d t 0.25 (2, 3)%Z (3, 4)%Z)) 0.5 dx
       /\ derivable_pt_lim
            (fun t => value_or 0 (bernstein2d 0.5 t (2, 3)%Z (3, 4)%Z)) 0.25 dy.
Proof.
  assert (Hx : (0 <= 2 <= 3)%Z) by lia.
  assert (Hy : (0 <= 3 <= 4)%Z) by lia.
  split; [exact Hx|]. split; [exact Hy|].
  exact (Dbernstein2d_gradient 0.5 0.25 2 3 3 4 Hx Hy).
Defined.

Lemma py_sum_range (f : Z -> result R) (g : nat -> R) (m : nat) :
  (forall i, (i <= m)%nat -> f (Z.of_nat i) = Ok (g i)) ->
  py_sum f (range (Z.of_nat m + 1)) = Ok (sum_f_R0 g m).
Proof.
  intros Hf. unfold py_sum, range.
  rewrite (fold_sum_ok _ (fun k => g (Z.to_nat k))).
  - f_equal. replace (Z.to_nat (Z.of_nat m + 1)) with (S m) by lia.
    rewrite fold_range_sum. apply sum_eq. intros i _. now rewrite Nat2Z.id.
  - intros k Hk. apply in_map_iff in Hk. destruct Hk as (i & <- & Hi).
    apply in_seq in Hi. rewrite Nat2Z.id. apply Hf. lia.
Qed.

(** X13.  The tensor-product basis is a partition of unity: the double
    sum of [bernstein2d(x, y, (kx, ky), (nx, ny))] over [kx] in
    [range(nx+1)] and [ky] in [range(ny+1)] is [1], for all reals [x], [y]
    and degrees [nx, ny >= 0]. *)
Theorem tensor_basis_sums_to_one (x y : R) (nx ny : Z) :
  (0 <= nx)%Z -> (0 <= ny)%Z ->
  py_sum (fun kx =>
            py_sum (fun ky => bernstein2d x y (kx, ky) (nx, ny))
                   (range (ny + 1)))
         (range (nx + 1))
  = Ok 1.
Proof.
  intros Hnx Hny.
  replace (range (nx + 1)) with (range (Z.of_nat (Z.to_nat nx) + 1))
    by now rewrite Z2Nat.id.
  replace (range (ny + 1)) with (range (Z.of_nat (Z.to_nat ny) + 1))
    by now rewrite Z2Nat.id.
  rewrite (py_sum_range _ (fun i => Bpoly i (Z.to_nat nx) x)).
  - f_equal. apply Bpoly_sum.
  - intros i Hi.
    rewrite (py_sum_range _ (fun j => Bpoly i (Z.to_nat nx) x
                                      * Bpoly j (Z.to_nat ny) y)).
    + f_equal.
      transitivity (Bpoly i (Z.to_nat nx) x
                    * sum_f_R0 (fun j => Bpoly j (Z.to_nat ny) y) (Z.to_nat ny)).
      * rewrite scal_sum. apply sum_eq. intros j _. ring.
      * rewrite Bpoly_sum. ring.
    + intros j Hj. rewrite bernstein2d_scalar by lia.
      now rewrite !Nat2Z.id.
Qed.

Lemma tensor_basis_sums_to_one_witness :
  (0 <= 2)%Z /\ (0 <= 1)%Z
  /\ py_sum (fun kx =>
               py_sum (fun ky => bernstein2d 0.25 0.75 (kx, ky) (2, 1)%Z)
                      (range (1 + 1)))
            (range (2 + 1))
     = Ok 1.
Proof.
  assert (Hx : (0 <= 2)%Z) by lia.
  assert (Hy : (0 <= 1)%Z) by lia.
  split; [exact Hx|]. split; [exact Hy|].
  exact (tensor_basis_sums_to_one 0.25 0.75 2 1 Hx Hy).
Defined.

(** ** The interactive heatmap and the weighted sum *)

(** X14.  Without shift the colour bound is attained: at the corner
    [(1, 1)] of the unit square, with [c1 = c2 = 0] and orders
    [n1, n2 >= 0], the plotted value equals [vscale]. *)
Theorem vscale_attained (n1 n2 : Z) :
  (0 <= n1)%Z -> (0 <= n2)%Z ->
  exists zs v, plot_signpoly2d 1 1 n1 n2 0 0 = Ok (zs, v) /\ zs = v.
Proof.
  intros H1 H2.
  destruct (plot_signpoly2d_scalar 1 1 n1 n2 0 0 H1 H2) as (zs & v & E & Hv & Hz).
  exists zs, v. split; [assumption|]. rewrite Hz, Hv. unfold Hpoly.
  replace (2 * (1 - 0) - 1) with 1 by ring.
  rewrite sign_pos, !pow1 by lra. field.
  split; apply INR_fact_neq_0.
Qed.

Lemma vscale_attained_witness :
  (0 <= 2)%Z /\ (0 <= 5)%Z
  /\ exists zs v, plot_signpoly2d 1 1 2 5 0 0 = Ok (zs, v) /\ zs = v.
Proof.
  assert (H1 : (0 <= 2)%Z) by lia.
  assert (H2 : (0 <= 5)%Z) by lia.
  split; [exact H1|]. split; [exact H2|].
  exact (vscale_attained 2 5 H1 H2).
Defined.

(** X15.  In the last cell the weight [w2 = 2 * m1! * m2!] cancels the
    factorials of the two integrated sign functions: the cell never raises
    and every cell of its result is
    [2 * B(2,3)(x) * B(3,4)(y)
     + 2 * (x-0.4)^2 sign(x-0.4) * (y-0.6)^3 sign(y-0.6)]. *)
Theorem weighted_cell_closed_form {A : Type} `{NDArray A} (xgrid ygrid : A) :
  exists zs, weighted_cell xgrid ygrid = Ok zs
    /\ forall i,
         item zs i
         = 2 * (Bext 2 3 (item xgrid i) * Bext 3 4 (item ygrid i))
           + 2 * ((item xgrid i - 0.4) ^ 2 * sign (item xgrid i - 0.4))
               * ((item ygrid i - 0.6) ^ 3 * sign (item ygrid i - 0.6)).
Proof.
  unfold weighted_cell.
  destruct (bernstein2d_cells xgrid ygrid (2, 3)%Z (3, 4)%Z)
    as (bx & by_ & zs1 & Ex & Ey & -> & Hz); [cbn; lia | cbn; lia |].
  cbn [fst snd] in *.
  destruct (bernstein_cells xgrid 2 3 ltac:(lia)) as (bx' & Ex' & Hbx).
  destruct (bernstein_cells ygrid 3 4 ltac:(lia)) as (by' & Ey' & Hby).
  assert (bx' = bx) by congruence. assert (by' = by_) by congruence.
  subst bx' by'.
  destruct (signpoly_cells (np.subc xgrid 0.4) 2) as (h1 & -> & Hh1); [lia|].
  destruct (signpoly_cells (np.subc ygrid 0.6) 3) as (h2 & -> & Hh2); [lia|].
  rewrite !factorial_nonneg by lia. cbn [bind].
  eexists. split; [reflexivity|]. intros i.
  rewrite weighted_sum_cells. autorewrite with cells.
  rewrite Hz, Hbx, Hby, Hh1, Hh2, !Bext_inside by lia.
  autorewrite with cells. unfold Hpoly.
  change (Z.to_nat 2) with 2%nat. change (Z.to_nat 3) with 3%nat.
  simpl fact. simpl Z.of_nat. simpl INR. field.
Qed.

(** ** The sample grid *)

Lemma vec_init_nth {A : Type} (f : nat -> A) (n : nat) (p : Fin.t n) :
  Vector.nth (vec_init f n) p = f (proj1_sig (Fin.to_nat p)).
Proof.
  revert f. induction p as [n|n p IH]; intros f.
  - reflexivity.
  - cbn [vec_init Vector.nth]. simpl. rewrite IH.
    destruct (Fin.to_nat p) as [i Hi]. reflexivity.
Qed.

Lemma linspace_nth (a b : R) (num : nat) (p : Fin.t num) :
  Vector.nth (linspace a b num) p
  = INR (proj1_sig (Fin.to_nat p)) * ((b - a) / INR (num - 1)) + a.
Proof. unfold linspace. now rewrite vec_init_nth. Qed.

Lemma sample_between (a b : R) (i N : nat) :
  (i <= N)%nat -> a <= b -> a <= INR i * ((b - a) / INR N) + a <= b.
Proof.
  intros Hi Hab. destruct N as [|N].
  - replace i with 0%nat by lia. simpl. lra.
  - assert (HN : 0 < INR (S N)) by (apply lt_0_INR; lia).
    assert (H0 : 0 <= INR i) by apply pos_INR.
    assert (H1 : INR i <= INR (S N)) by now apply le_INR.
    assert (Hq : 0 <= INR i / INR (S N) <= 1).
    { split.
      - apply Rmult_le_pos; [assumption|]. apply Rlt_le. now apply Rinv_0_lt_compat.
      - apply (Rmult_le_reg_r (INR (S N))); [assumption|].
        unfold Rdiv. rewrite Rmult_assoc, Rinv_l by lra. lra. }
    replace (INR i * ((b - a) / INR (S N))) with (INR i / INR (S N) * (b - a))
      by (field; lra).
    nra.
Qed.

(** The model of [np.linspace(a, b, num)] with [a <= b] yields [num]
    samples between [a] and [b]; the first one is [a] and, for [num > 1],
    the one at position [num - 1] is [b], the value numpy stores there. *)
Lemma linspace_samples (a b : R) (num : nat) (p : Fin.t num) :
  a <= b ->
  let i := proj1_sig (Fin.to_nat p) in
  a <= Vector.nth (linspace a b num) p <= b
  /\ (i = 0%nat -> Vector.nth (linspace a b num) p = a)
  /\ (i = (num - 1)%nat -> (1 < num)%nat -> Vector.nth (linspace a b num) p = b).
Proof.
  intros Hab i. rewrite linspace_nth. fold i.
  assert (Hi : (i < num)%nat) by exact (proj2_sig (Fin.to_nat p)).
  repeat split.
  - apply sample_between; [lia|assumption].
  - apply sample_between; [lia|assumption].
  - intros ->. simpl. ring.
  - intros -> Hnum. field. apply not_0_INR. lia.
Qed.

Lemma linspace_samples_witness :
  0 <= 1
  /\ 0 <= Vector.nth (linspace 0 1 3) (Fin.FS Fin.F1) <= 1
  /\ Vector.nth (linspace 0 1 3) Fin.F1 = 0
  /\ Vector.nth (linspace 0 1 3) (Fin.FS (Fin.FS Fin.F1)) = 1.
Proof.
  assert (Hab : 0 <= 1) by lra.
  split; [exact Hab|].
  split; [exact (proj1 (linspace_samples 0 1 3 (Fin.FS Fin.F1) Hab))|].
  split.
  - exact (proj1 (proj2 (linspace_samples 0 1 3 Fin.F1 Hab)) eq_refl).
  - apply (proj2 (proj2 (linspace_samples 0 1 3 (Fin.FS (Fin.FS Fin.F1)) Hab)));
      [reflexivity | cbn; lia].
Defined.

Lemma INR_99 : INR (resolution - 1) = 99.
Proof.
  rewrite INR_IZR_INZ. change (Z.of_nat (resolution - 1)) with 99%Z.
  reflexivity.
Qed.

Lemma unit_grid_x (i j : Fin.t resolution) :
  item (fst unit_grid) (i, (j, tt)) = INR (proj1_sig (Fin.to_nat j)) / 99.
Proof.
  unfold unit_grid, meshgrid. cbn [fst snd item NDArray_axis NDArray_scalar].
  rewrite Vector.const_nth, linspace_nth, INR_99. field.
Qed.

Lemma unit_grid_y (i j : Fin.t resolution) :
  item (snd unit_grid) (i, (j, tt)) = INR (proj1_sig (Fin.to_nat i)) / 99.
Proof.
  unfold unit_grid, meshgrid. cbn [fst snd item NDArray_axis NDArray_scalar].
  rewrite (Vector.nth_map _ _ i i eq_refl).
  rewrite Vector.const_nth, linspace_nth, INR_99. field.
Qed.

Lemma grid_coordinate (i : Fin.t resolution) :
  0 <= INR (proj1_sig (Fin.to_nat i)) / 99 <= 1.
Proof.
  assert (Hi : (proj1_sig (Fin.to_nat i) < resolution)%nat)
    by exact (proj2_sig (Fin.to_nat i)).
  assert (H := sample_between 0 1 (proj1_sig (Fin.to_nat i)) (resolution - 1)
                 ltac:(unfold resolution in *; lia) ltac:(lra)).
  rewrite INR_99 in H. lra.
Qed.

(** X16.  The grid of the 2D cells: [xgrid] and [ygrid] have the shape
    [100 x 100]; in row [i] and column [j] the cell of [xgrid] is [j / 99]
    and the cell of [ygrid] is [i / 99], both in [[0, 1]]. *)
Theorem unit_grid_cells (i j : Fin.t resolution) :
  let x := item (fst unit_grid) (i, (j, tt)) in
  let y := item (snd unit_grid) (i, (j, tt)) in
  x = INR (proj1_sig (Fin.to_nat j)) / 99
  /\ y = INR (proj1_sig (Fin.to_nat i)) / 99
  /\ 0 <= x <= 1 /\ 0 <= y <= 1.
Proof.
  intros x y. unfold x, y. rewrite unit_grid_x, unit_grid_y.
  split; [reflexivity|]. split; [reflexivity|].
  split; apply grid_coordinate.
Qed.

(** X17.  The cell that plots the 2D Bernstein polynomial never raises;
    in row [i] and column [j] the plotted value is
    [B(2,3)(j/99) * B(3,4)(i/99)], a number in [[0, 1]], and the two other
    images hold the products with the derivative in [x] and in [y]. *)
Theorem bernstein2d_cell_values :
  exists zs dx dy,
    bernstein2d_cell = Ok (zs, (dx, dy))
    /\ forall i j : Fin.t resolution,
         let x := INR (proj1_sig (Fin.to_nat j)) / 99 in
         let y := INR (proj1_sig (Fin.to_nat i)) / 99 in
         item zs (i, (j, tt)) = Bext 2 3 x * Bext 3 4 y
         /\ 0 <= item zs (i, (j, tt)) <= 1
         /\ item dx (i, (j, tt)) = DBext 2 3 x * Bext 3 4 y
         /\ item dy (i, (j, tt)) = Bext 2 3 x * DBext 3 4 y.
Proof.
  unfold bernstein2d_cell.
  destruct unit_grid as [xgrid ygrid] eqn:Eg.
  assert (Hx : forall i j, item xgrid (i, (j, tt))
                           = INR (proj1_sig (Fin.to_nat j)) / 99).
  { intros i j. rewrite <- (unit_grid_x i j). now rewrite Eg. }
  assert (Hy : forall i j, item ygrid (i, (j, tt))
                           = INR (proj1_sig (Fin.to_nat i)) / 99).
  { intros i j. rewrite <- (unit_grid_y i j). now rewrite Eg. }
  destruct (bernstein2d_cells xgrid ygrid (2, 3)%Z (3, 4)%Z)
    as (bx & by_ & zs & Ex & Ey & -> & Hz); [cbn; lia | cbn; lia |].
  destruct (Dbernstein2d_cells xgrid ygrid (2, 3)%Z (3, 4)%Z)
    as (bx' & by' & dbx & dby & dx & dy & Ex' & Ey' & Edx & Edy & -> & Hd);
    [cbn; lia | cbn; lia |].
  cbn [fst snd bind] in *.
  assert (bx' = bx) by congruence. assert (by' = by_) by congruence.
  subst bx' by'.
  destruct (bernstein_cells xgrid 2 3 ltac:(lia)) as (b1 & E1 & Hbx).
  destruct (bernstein_cells ygrid 3 4 ltac:(lia)) as (b2 & E2 & Hby).
  assert (b1 = bx) by congruence. assert (b2 = by_) by congruence.
  subst b1 b2.
  destruct (Dbernstein_cells xgrid 2 3 ltac:(lia)) as (d1 & E3 & Hdbx).
  destruct (Dbernstein_cells ygrid 3 4 ltac:(lia)) as (d2 & E4 & Hdby).
  assert (d1 = dbx) by congruence. assert (d2 = dby) by congruence.
  subst d1 d2.
  exists zs, dx, dy. split; [reflexivity|]. intros i j.
  set (x := INR (proj1_sig (Fin.to_nat j)) / 99).
  set (y := INR (proj1_sig (Fin.to_nat i)) / 99).
  assert (Ez : item zs (i, (j, tt)) = Bext 2 3 x * Bext 3 4 y).
  { rewrite Hz, Hbx, Hby, Hx, Hy, !Bext_inside by lia. reflexivity. }
  split; [exact Ez|]. split; [|split].
  - rewrite Ez, !Bext_inside by lia.
    assert (Gx := grid_coordinate j). assert (Gy := grid_coordinate i).
    fold x in Gx. fold y in Gy.
    assert (0 <= Bpoly (Z.to_nat 2) (Z.to_nat 3) x <= 1).
    { split; [apply Bpoly_nonneg | apply Bpoly_le_1]; (lia || assumption). }
    assert (0 <= Bpoly (Z.to_nat 3) (Z.to_nat 4) y <= 1).
    { split; [apply Bpoly_nonneg | apply Bpoly_le_1]; (lia || assumption). }
    nra.
  - rewrite (proj1 (Hd _)), Hdbx, Hby, Hx, Hy, (Bext_inside 3 4) by lia.
    reflexivity.
  - rewrite (proj2 (Hd _)), Hbx, Hdby, Hx, Hy, (Bext_inside 2 3) by lia.
    reflexivity.
Qed.
